(** * EchoText: the voice-activity segmentation engine

    A shallow embedding of [backend/app/services/vad_service.py]: the frame
    splitter of [process_audio_chunk], the speech decision and the
    Idle/Speaking machine of [_process_frame], and the connection registry of
    [VadService].

    Python floats are IEEE binary64 numbers and are modelled by Rocq's primitive
    floats, so that every threshold comparison is the one the interpreter
    performs.  Python ints are [Z]; [bytes] and [bytearray] are lists of
    bytes; the three [collections.deque(maxlen=...)] rings are lists whose
    append evicts from the left; the [connections] dict is a [gmap].

    Calls are taken one at a time, as the receive loop of a connection
    makes them.  The callback [on_utterance_detected] is a recorder: what
    matters of it is whether it is there and what it was called with.  It
    returns, as the one the receive loop passes does (it only logs); a
    callback that raises is outside the model.

    The last part embeds the callers: the sending side of
    [backend/app/services/deepgram_service.py] and the receive loop of
    [backend/app/routes/transcription.py], which hands every chunk to both
    services.  What comes from outside (what the websocket delivers, whether
    the Deepgram connection raises) is an argument; the events of Deepgram's
    own thread are functions of their own and are not interleaved with the
    loop. *)

From Stdlib Require Import ZArith List Lia Bool QArith Qround.
From Stdlib Require Import PrimFloat FloatOps SpecFloat Uint63.
From stdpp Require Import base gmap strings.
Import ListNotations.

Set Warnings "-inexact-float".
#[local] Open Scope Z_scope.

(** ** Python values *)

Abbreviation bytes := (list Byte.byte).

(** [len(x)] *)
Definition len {A : Type} (l : list A) : Z := Z.of_nat (length l).

(** [x[lo:hi]] for [0 <= lo <= hi] *)
Definition slice {A : Type} (l : list A) (lo hi : Z) : list A :=
  firstn (Z.to_nat (hi - lo)) (skipn (Z.to_nat lo) l).

(** [x[lo:]] for [0 <= lo] *)
Definition slice_from {A : Type} (l : list A) (lo : Z) : list A :=
  skipn (Z.to_nat lo) l.

(** [float(n)] for an int [0 <= n < 2^63] (every int converted in this module
    is a deque length, at most 21). *)
Definition float_of_int (n : Z) : float := PrimFloat.of_uint63 (Uint63.of_Z n).

(** [int(x)]: truncation toward zero; [None] where Python raises (NaN and the
    infinities). *)
Definition int_of_float (x : float) : option Z :=
  match Prim2SF x with
  | S754_zero _ => Some 0
  | S754_finite s m e =>
      let a := if 0 <=? e then Z.shiftl (Z.pos m) e else Z.shiftr (Z.pos m) (- e) in
      Some (if s then - a else a)
  | S754_infinity _ => None
  | S754_nan => None
  end.

(** [deque.append] on a deque built with [maxlen]: the new item goes to the
    right and, when the deque was full, the leftmost one is dropped. *)
Definition deque_append {A : Type} (maxlen : Z) (d : list A) (x : A) : list A :=
  let d' := d ++ [x] in
  skipn (length d' - Z.to_nat maxlen) d'.

(** [deque.count(True)] *)
Fixpoint count_true (d : list bool) : Z :=
  match d with
  | [] => 0
  | b :: d' => (if b then 1 else 0) + count_true d'
  end.

(** ** Constants (vad_service.py, lines 19-50) *)

Definition SAMPLE_RATE : Z := 16000.
Definition FRAME_DURATION_MS : Z := 32.

(** [int(SAMPLE_RATE * FRAME_DURATION_MS / 1000)]: the product is an int, the
    quotient a float. *)
Definition FRAME_SAMPLES : Z :=
  default 0 (int_of_float (float_of_int (SAMPLE_RATE * FRAME_DURATION_MS) / 1000)%float).
Definition FRAME_BYTES : Z := FRAME_SAMPLES * 2.

Definition STRONG_SPEECH_PROB : float := 0.85%float.
Definition WEAK_SPEECH_PROB : float := 0.50%float.

Definition SPEECH_BUFFER_DURATION_MS : Z := 480.
Definition SPEECH_BUFFER_FRAMES : Z := SPEECH_BUFFER_DURATION_MS / FRAME_DURATION_MS.

Definition SPEECH_TRIGGER_RATIO : float := 0.90%float.
Definition SPEECH_RELEASE_RATIO : float := 0.25%float.

Definition MIN_UTTERANCE_DURATION_S : float := 1.2%float.
Definition MIN_UTTERANCE_SAMPLES : Z :=
  default 0 (int_of_float (float_of_int SAMPLE_RATE * MIN_UTTERANCE_DURATION_S)%float).

Definition PRE_SPEECH_MS : Z := 400.
Definition PRE_SPEECH_FRAMES : Z := PRE_SPEECH_MS / FRAME_DURATION_MS.

Definition TRAILING_SILENCE_MS : Z := 700.
Definition TRAILING_SILENCE_FRAMES : Z := TRAILING_SILENCE_MS / FRAME_DURATION_MS.

(** ** What the module calls but does not define *)

(** The result of one call of the Silero model: a probability, or an
    exception. *)
Inductive score : Type :=
  | Returned (speech_prob : float)
  | Raised.

(** The collaborators of the engine.  [Model] is the loaded network, which
    keeps recurrent state between calls; [model_call] is
    [self.model(torch.from_numpy(audio_f32), SAMPLE_RATE).item()];
    [rms_below_gate frame] is the test [rms < RMS_NOISE_GATE] (0.01) on the
    float32 root mean square numpy computes for the frame; [time_time k] is
    the k-th reading of [time.time()]; [utterance_name t] is the string
    [f"utt_{int(t * 1000)}"]. *)
Class Collaborators : Type := {
  Model : Type;
  model_call : Model -> bytes -> score * Model;
  rms_below_gate : bytes -> bool;
  time_time : nat -> float;
  utterance_name : float -> string
}.

(** How a call ends: it returns, an exception leaves it, or the model of a
    loop ran out of fuel (shown below never to happen). *)
Inductive completion : Type :=
  | Normal
  | Exception
  | OutOfFuel.

(** ** VadState (lines 55-68) *)

Record VadState : Type := {
  speech_buffer : bytes;
  pre_speech_buffer : list bytes;          (* deque(maxlen=PRE_SPEECH_FRAMES) *)
  vad_decision_buffer : list bool;         (* deque(maxlen=SPEECH_BUFFER_FRAMES) *)
  trailing_silence_buffer : list bytes;    (* deque(maxlen=TRAILING_SILENCE_FRAMES) *)
  in_speech : bool;
  speech_start_time : option float;
  current_utterance_id : option string;
  partial_frame : bytes
}.

(** [VadState.reset]: every field is rebound to a fresh value.  [VadState()]
    is the same record, since [__init__] only calls [reset]. *)
Definition reset : VadState := {|
  speech_buffer := [];
  pre_speech_buffer := [];
  vad_decision_buffer := [];
  trailing_silence_buffer := [];
  in_speech := false;
  speech_start_time := None;
  current_utterance_id := None;
  partial_frame := []
|}.

Definition set_partial_frame (state : VadState) (p : bytes) : VadState := {|
  speech_buffer := speech_buffer state;
  pre_speech_buffer := pre_speech_buffer state;
  vad_decision_buffer := vad_decision_buffer state;
  trailing_silence_buffer := trailing_silence_buffer state;
  in_speech := in_speech state;
  speech_start_time := speech_start_time state;
  current_utterance_id := current_utterance_id state;
  partial_frame := p
|}.

(** ** The speech decision and the window statistics (lines 180-192) *)

(** The probability-weighted decision: the uncertain band counts as noise. *)
Definition is_speech_of (speech_prob : float) : bool :=
  if (STRONG_SPEECH_PROB <? speech_prob)%float then true
  else if (speech_prob <? WEAK_SPEECH_PROB)%float then false
  else false.

(** [speech_frames / total_frames if total_frames else 0.0] *)
Definition speech_ratio_of (speech_frames total_frames : Z) : float :=
  if total_frames =? 0 then 0%float
  else (float_of_int speech_frames / float_of_int total_frames)%float.

(** The start condition of lines 200-203.  [and] evaluates its second operand
    only when the first holds; [None] stands for an exception out of [int]. *)
Definition start_condition (speech_ratio : float) (speech_frames total_frames : Z)
  : option bool :=
  if (SPEECH_TRIGGER_RATIO <=? speech_ratio)%float then
    match int_of_float (0.6 * float_of_int total_frames)%float with
    | Some k => Some (k <=? speech_frames)
    | None => None
    end
  else Some false.

Section Engine.
Context `{Collaborators}.

(** Everything one frame can change: the connection's [VadState] object,
    the model held by the service, the clock, and the calls received by
    [on_utterance_detected] (oldest first). *)
Record Machine : Type := {
  m_state : VadState;
  m_model : option Model;
  m_clock : nat;
  m_sent : list bytes
}.

(** [self.model(...)]: calling [None] raises [TypeError]. *)
Definition call_model (model : option Model) (frame_bytes : bytes)
  : score * option Model :=
  match model with
  | Some mdl => let '(r, mdl') := model_call mdl frame_bytes in (r, Some mdl')
  | None => (Raised, None)
  end.

(** The state after lines 189 and 195: both rings have taken the frame. *)
Definition push_frame (state : VadState) (frame_bytes : bytes) (is_speech : bool)
  : VadState := {|
  speech_buffer := speech_buffer state;
  pre_speech_buffer :=
    deque_append PRE_SPEECH_FRAMES (pre_speech_buffer state) frame_bytes;
  vad_decision_buffer :=
    deque_append SPEECH_BUFFER_FRAMES (vad_decision_buffer state) is_speech;
  trailing_silence_buffer := trailing_silence_buffer state;
  in_speech := in_speech state;
  speech_start_time := speech_start_time state;
  current_utterance_id := current_utterance_id state;
  partial_frame := partial_frame state
|}.

(** Lines 204-215: speech starts.  The clock is read twice, the whole
    pre-speech ring is copied into the speech buffer, then the frame. *)
Definition start_speech (state : VadState) (clock : nat) (frame_bytes : bytes)
  : VadState := {|
  speech_buffer :=
    speech_buffer state ++ concat (pre_speech_buffer state) ++ frame_bytes;
  pre_speech_buffer := pre_speech_buffer state;
  vad_decision_buffer := vad_decision_buffer state;
  trailing_silence_buffer := [];
  in_speech := true;
  speech_start_time := Some (time_time clock);
  current_utterance_id := Some (utterance_name (time_time (S clock)));
  partial_frame := partial_frame state
|}.

(** Lines 219-242 without the end of the utterance: the frame joins the
    speech buffer and the trailing ring becomes [trailing]. *)
Definition continue_speech (state : VadState) (frame_bytes : bytes)
    (trailing : list bytes) : VadState := {|
  speech_buffer := speech_buffer state ++ frame_bytes;
  pre_speech_buffer := pre_speech_buffer state;
  vad_decision_buffer := vad_decision_buffer state;
  trailing_silence_buffer := trailing;
  in_speech := in_speech state;
  speech_start_time := speech_start_time state;
  current_utterance_id := current_utterance_id state;
  partial_frame := partial_frame state
|}.

(** The Idle/Speaking machine of lines 188-242, entered once the frame has
    its decision. *)
Definition state_machine (on_utterance_detected : bool) (m : Machine)
    (model' : option Model) (frame_bytes : bytes) (is_speech : bool)
  : Machine * completion :=
  let state := push_frame (m_state m) frame_bytes is_speech in
  let speech_frames := count_true (vad_decision_buffer state) in
  let total_frames := len (vad_decision_buffer state) in
  let speech_ratio := speech_ratio_of speech_frames total_frames in
  if negb (in_speech state) then
    match start_condition speech_ratio speech_frames total_frames with
    | None =>
        ({| m_state := state; m_model := model';
            m_clock := m_clock m; m_sent := m_sent m |}, Exception)
    | Some true =>
        ({| m_state := start_speech state (m_clock m) frame_bytes;
            m_model := model';
            m_clock := S (S (m_clock m)); m_sent := m_sent m |}, Normal)
    | Some false =>
        ({| m_state := state; m_model := model';
            m_clock := m_clock m; m_sent := m_sent m |}, Normal)
    end
  else if (speech_ratio <? SPEECH_RELEASE_RATIO)%float then
    let trailing :=
      deque_append TRAILING_SILENCE_FRAMES (trailing_silence_buffer state)
        frame_bytes in
    let state := continue_speech state frame_bytes trailing in
    if len trailing =? TRAILING_SILENCE_FRAMES then
      let min_utterance_bytes := MIN_UTTERANCE_SAMPLES * 2 in
      let sent :=
        if min_utterance_bytes <=? len (speech_buffer state) then
          if on_utterance_detected then m_sent m ++ [speech_buffer state]
          else m_sent m
        else m_sent m in
      ({| m_state := reset; m_model := model';
          m_clock := m_clock m; m_sent := sent |}, Normal)
    else
      ({| m_state := state; m_model := model';
          m_clock := m_clock m; m_sent := m_sent m |}, Normal)
  else
    ({| m_state := continue_speech state frame_bytes [];
        m_model := model';
        m_clock := m_clock m; m_sent := m_sent m |}, Normal).

(** [VadService._process_frame] (lines 154-242).  [on_utterance_detected]
    is the truth value of the callback; its calls are recorded in [m_sent]. *)
Definition _process_frame (on_utterance_detected : bool) (m : Machine)
    (frame_bytes : bytes) : Machine * completion :=
  if negb (len frame_bytes =? FRAME_BYTES) then (m, Normal)
  else
    let '(speech_prob, model') :=
      if rms_below_gate frame_bytes then (Returned 0%float, m_model m)
      else call_model (m_model m) frame_bytes in
    match speech_prob with
    | Raised =>
        ({| m_state := m_state m; m_model := model';
            m_clock := m_clock m; m_sent := m_sent m |}, Exception)
    | Returned speech_prob =>
        state_machine on_utterance_detected m model' frame_bytes
          (is_speech_of speech_prob)
    end.

End Engine.

(** ** The frame loop (lines 141-152) *)

Section FrameLoop.
Context {St : Type}.

(** What the loop does with a complete frame, and with the tail it keeps. *)
Variable handle : St -> bytes -> St * completion.
Variable keep_tail : St -> bytes -> St.

(** [while offset < len(audio_bytes)]: a complete frame is handed over
    and the offset advances by [FRAME_BYTES]; a shorter rest is kept and the
    loop is left.  An exception out of the handler leaves the loop at once.
    [fuel] bounds the number of iterations. *)
Fixpoint frame_loop (fuel : nat) (audio_bytes : bytes) (offset : Z) (s : St)
  : St * completion :=
  if offset <? len audio_bytes then
    match fuel with
    | O => (s, OutOfFuel)
    | S fuel' =>
        let remaining := len audio_bytes - offset in
        if FRAME_BYTES <=? remaining then
          let frame_bytes := slice audio_bytes offset (offset + FRAME_BYTES) in
          match handle s frame_bytes with
          | (s', Normal) => frame_loop fuel' audio_bytes (offset + FRAME_BYTES) s'
          | (s', stop) => (s', stop)
          end
        else (keep_tail s (slice_from audio_bytes offset), Normal)
    end
  else (s, Normal).

End FrameLoop.

(** The loop as a pure splitter: the handler logs the frame it is given and
    the tail is appended to the stored remainder.  The state is the pair
    of the frames seen so far and the remainder. *)
Definition log_frame (s : list bytes * bytes) (frame_bytes : bytes)
  : (list bytes * bytes) * completion :=
  ((fst s ++ [frame_bytes], snd s), Normal).

Definition log_tail (s : list bytes * bytes) (tail : bytes) : list bytes * bytes :=
  (fst s, snd s ++ tail).

(** [split_chunk remainder chunk]: the frames [process_audio_chunk] hands to
    [_process_frame] for one chunk, and the remainder it stores (lines
    135-152 with the logging handler). *)
Definition split_chunk (remainder chunk : bytes) : list bytes * bytes :=
  let audio_bytes := remainder ++ chunk in
  fst (frame_loop log_frame log_tail (S (length audio_bytes))
         audio_bytes 0 ([], [])).

(** The splitter over successive chunks, the remainder carried from call to
    call. *)
Fixpoint split_chunks (remainder : bytes) (chunks : list bytes) : list bytes * bytes :=
  match chunks with
  | [] => ([], remainder)
  | chunk :: chunks' =>
      let '(frames, remainder') := split_chunk remainder chunk in
      let '(frames', remainder'') := split_chunks remainder' chunks' in
      (frames ++ frames', remainder'')
  end.

(** ** VadService (lines 71-152) *)

Section Service.
Context `{Collaborators}.

Record VadService : Type := {
  model : option Model;
  vad_model_loaded : bool;
  connections : gmap string VadState
}.

(** [VadService.__init__] with [_load_model] (lines 72-99).  [hub_load] is
    the outcome of [torch.hub.load]: the model, or [None] when it raised. *)
Definition VadService_init (TORCH_AVAILABLE : bool) (hub_load : option Model)
  : VadService :=
  if TORCH_AVAILABLE then
    match hub_load with
    | Some mdl =>
        {| model := Some mdl; vad_model_loaded := true; connections := ∅ |}
    | None =>
        {| model := None; vad_model_loaded := false; connections := ∅ |}
    end
  else {| model := None; vad_model_loaded := false; connections := ∅ |}.

(** [get_state]: the state of the connection, created on first use. *)
Definition get_state (self : VadService) (connection_id : string)
  : VadService * VadState :=
  match connections self !! connection_id with
  | Some state => (self, state)
  | None =>
      ({| model := model self;
          vad_model_loaded := vad_model_loaded self;
          connections := <[connection_id := reset]> (connections self) |},
       reset)
  end.

(** [cleanup_connection] *)
Definition cleanup_connection (self : VadService) (connection_id : string)
  : VadService :=
  match connections self !! connection_id with
  | Some _ =>
      {| model := model self;
         vad_model_loaded := vad_model_loaded self;
         connections := delete connection_id (connections self) |}
  | None => self
  end.

(** [state.partial_frame.extend(audio_bytes[offset:])] *)
Definition keep_partial (m : Machine) (tail : bytes) : Machine := {|
  m_state := set_partial_frame (m_state m) (partial_frame (m_state m) ++ tail);
  m_model := m_model m;
  m_clock := m_clock m;
  m_sent := m_sent m
|}.

(** What a call of [process_audio_chunk] leaves behind: the service, the
    clock, the calls the callback received during it, and how it ended. *)
Record ChunkRun : Type := {
  cr_self : VadService;
  cr_clock : nat;
  cr_sent : list bytes;
  cr_done : completion
}.

(** [process_audio_chunk] (lines 113-152).  The state object stays in the
    dict while the loop mutates it, so the dict holds the final state also
    when an exception leaves the call. *)
Definition process_audio_chunk (self : VadService) (clock : nat)
    (connection_id : string) (audio_bytes : bytes) (on_utterance_detected : bool)
  : ChunkRun :=
  if negb (vad_model_loaded self) then
    {| cr_self := self;
       cr_clock := clock;
       cr_sent := if on_utterance_detected then [audio_bytes] else [];
       cr_done := Normal |}
  else
    let '(self, state) := get_state self connection_id in
    let '(audio_bytes, state) :=
      match partial_frame state with
      | [] => (audio_bytes, state)
      | _ :: _ => (partial_frame state ++ audio_bytes, set_partial_frame state [])
      end in
    let '(m, done) :=
      frame_loop (_process_frame on_utterance_detected) keep_partial
        (S (length audio_bytes)) audio_bytes 0
        {| m_state := state; m_model := model self;
           m_clock := clock; m_sent := [] |} in
    {| cr_self :=
         {| model := m_model m;
            vad_model_loaded := vad_model_loaded self;
            connections := <[connection_id := m_state m]> (connections self) |};
       cr_clock := m_clock m;
       cr_sent := m_sent m;
       cr_done := done |}.

(** Successive calls of [process_audio_chunk] for one connection, followed
    up to the first call that does not return. *)
Fixpoint process_audio_chunks (self : VadService) (clock : nat)
    (connection_id : string) (chunks : list bytes) (on_utterance_detected : bool)
  : ChunkRun :=
  match chunks with
  | [] => {| cr_self := self; cr_clock := clock; cr_sent := []; cr_done := Normal |}
  | chunk :: chunks' =>
      let r := process_audio_chunk self clock connection_id chunk
                 on_utterance_detected in
      match cr_done r with
      | Normal =>
          let r' := process_audio_chunks (cr_self r) (cr_clock r) connection_id
                      chunks' on_utterance_detected in
          {| cr_self := cr_self r'; cr_clock := cr_clock r';
             cr_sent := cr_sent r ++ cr_sent r'; cr_done := cr_done r' |}
      | _ => r
      end
  end.

(** The services a caller can bring about from [start]: any sequence of
    [process_audio_chunk] and [cleanup_connection] calls, whether they
    return or raise.  The last component is the clock. *)
Inductive reachable_from (start : VadService) : VadService -> nat -> Prop :=
  | reachable_start (clock : nat) :
      reachable_from start start clock
  | reachable_process (self : VadService) (clock : nat) (connection_id : string)
      (audio_bytes : bytes) (on_utterance_detected : bool) :
      reachable_from start self clock ->
      reachable_from start
        (cr_self (process_audio_chunk self clock connection_id audio_bytes
                    on_utterance_detected))
        (cr_clock (process_audio_chunk self clock connection_id audio_bytes
                     on_utterance_detected))
  | reachable_cleanup (self : VadService) (clock : nat) (connection_id : string) :
      reachable_from start self clock ->
      reachable_from start (cleanup_connection self connection_id) clock.

(** The services reachable from the constructor. *)
Definition reachable (self : VadService) (clock : nat) : Prop :=
  exists (TORCH_AVAILABLE : bool) (hub_load : option Model),
    reachable_from (VadService_init TORCH_AVAILABLE hub_load) self clock.

End Service.

(** * Properties *)

(** ** The constants at their values *)

Lemma FRAME_BYTES_value : FRAME_BYTES = 1024.
Proof. vm_compute. reflexivity. Qed.

Lemma SPEECH_BUFFER_FRAMES_value : SPEECH_BUFFER_FRAMES = 15.
Proof. vm_compute. reflexivity. Qed.

Lemma PRE_SPEECH_FRAMES_value : PRE_SPEECH_FRAMES = 12.
Proof. vm_compute. reflexivity. Qed.

Lemma TRAILING_SILENCE_FRAMES_value : TRAILING_SILENCE_FRAMES = 21.
Proof. vm_compute. reflexivity. Qed.

Lemma MIN_UTTERANCE_SAMPLES_value : MIN_UTTERANCE_SAMPLES = 19200.
Proof. vm_compute. reflexivity. Qed.

(** ** Lists, slices and deques *)

Lemma len_nonneg {A : Type} (l : list A) : 0 <= len l.
Proof. unfold len. lia. Qed.

Lemma len_app {A : Type} (l1 l2 : list A) : len (l1 ++ l2) = len l1 + len l2.
Proof. unfold len. rewrite length_app. lia. Qed.

Lemma len_nil_inv {A : Type} (l : list A) : len l = 0 -> l = [].
Proof. destruct l; [reflexivity | unfold len; simpl; lia]. Qed.

Lemma deque_append_length {A : Type} (maxlen : Z) (d : list A) (x : A) :
  0 <= maxlen -> len (deque_append maxlen d x) = Z.min (len d + 1) maxlen.
Proof.
  intros Hm. unfold deque_append, len.
  rewrite length_skipn, length_app. simpl. lia.
Qed.

(** With room for at least one item, the item just appended is the last one
    and the others come from the old contents, in order. *)
Lemma deque_append_last {A : Type} (maxlen : Z) (d : list A) (x : A) :
  1 <= maxlen ->
  exists older, deque_append maxlen d x = older ++ [x] /\
                older = skipn (length d + 1 - Z.to_nat maxlen) d.
Proof.
  intros Hm. unfold deque_append. rewrite length_app. simpl.
  exists (skipn (length d + 1 - Z.to_nat maxlen) d). split; [|reflexivity].
  rewrite skipn_app.
  replace (length d + 1 - Z.to_nat maxlen - length d)%nat with 0%nat by lia.
  reflexivity.
Qed.

Lemma count_true_bounds (d : list bool) : 0 <= count_true d <= len d.
Proof.
  induction d as [|b d IH]; unfold len in *; simpl; [lia|].
  destruct b; lia.
Qed.

Lemma count_true_all_false (d : list bool) :
  Forall (fun b => b = false) d -> count_true d = 0.
Proof.
  induction 1 as [|b d Hb _ IH]; simpl; [reflexivity|].
  rewrite Hb, IH. reflexivity.
Qed.

Lemma Forall_skipn' {A : Type} (P : A -> Prop) (n : nat) (l : list A) :
  Forall P l -> Forall P (skipn n l).
Proof.
  intros Hl. revert n. induction Hl as [|a l Ha Hl IH]; intros [|n]; simpl; auto.
Qed.

Lemma deque_append_Forall {A : Type} (P : A -> Prop) (maxlen : Z) (d : list A) (x : A) :
  Forall P d -> P x -> Forall P (deque_append maxlen d x).
Proof.
  intros Hd Hx. unfold deque_append. apply Forall_skipn'.
  apply Forall_app. split; [assumption | constructor; [assumption | constructor]].
Qed.

(** ** Framing: what it means to cut a byte sequence into frames *)

(** [framing l frames tail]: [l] is the frames, in order, followed by the
    tail; every frame has [FRAME_BYTES] bytes and the tail has fewer. *)
Definition framing (l : bytes) (frames : list bytes) (tail : bytes) : Prop :=
  l = concat frames ++ tail /\
  Forall (fun f => len f = FRAME_BYTES) frames /\
  len tail < FRAME_BYTES.

Lemma framing_app (l1 l2 : bytes) frames1 tail1 frames2 tail2 :
  framing l1 frames1 tail1 ->
  framing (tail1 ++ l2) frames2 tail2 ->
  framing (l1 ++ l2) (frames1 ++ frames2) tail2.
Proof.
  intros (E1 & F1 & _) (E2 & F2 & T2). repeat split.
  - rewrite concat_app, <- app_assoc, <- E2, E1, <- app_assoc. reflexivity.
  - apply Forall_app. split; assumption.
  - exact T2.
Qed.

Lemma framing_unique (l : bytes) frames tail frames' tail' :
  framing l frames tail -> framing l frames' tail' ->
  frames = frames' /\ tail = tail'.
Proof.
  revert l frames'.
  induction frames as [|f frames IH]; intros l frames' (E & F & T) (E' & F' & T').
  - destruct frames' as [|f' frames'].
    + simpl in *. split; [reflexivity | congruence].
    + exfalso. inversion F' as [|? ? Hf' _]; subst.
      simpl in E'. apply (f_equal len) in E'.
      rewrite !len_app in E'.
      pose proof (len_nonneg (concat frames')). pose proof (len_nonneg tail'). lia.
  - inversion F as [|? ? Hf Hfs]; subst.
    destruct frames' as [|f' frames'].
    + exfalso. simpl in E'. apply (f_equal len) in E'.
      rewrite !len_app in E'.
      pose proof (len_nonneg (concat frames)). pose proof (len_nonneg tail). lia.
    + inversion F' as [|? ? Hf' Hfs']; subst.
      simpl in E'. rewrite <- !app_assoc in E'.
      assert (Hlen : length f = length f') by (unfold len in *; lia).
      apply app_inj_1 in E'; [|exact Hlen]. destruct E' as [-> E'].
      destruct (IH (concat frames ++ tail) frames') as [-> ->].
      * repeat split; assumption.
      * repeat split; assumption.
      * split; reflexivity.
Qed.

Lemma framing_exists (l : bytes) : exists frames tail, framing l frames tail.
Proof.
  remember (length l) as n eqn:Hn. revert l Hn.
  induction n as [n IH] using lt_wf_ind. intros l Hn.
  destruct (Z_lt_le_dec (len l) FRAME_BYTES) as [Hlt|Hge].
  - exists [], l. repeat split; [constructor | exact Hlt].
  - pose proof FRAME_BYTES_value as HF.
    destruct (IH (length (skipn (Z.to_nat FRAME_BYTES) l))) with
      (l := skipn (Z.to_nat FRAME_BYTES) l) as (frames & tail & E & F & T).
    + rewrite length_skipn. unfold len in Hge. lia.
    + reflexivity.
    + exists (firstn (Z.to_nat FRAME_BYTES) l :: frames), tail. repeat split.
      * simpl. rewrite <- app_assoc, <- E, firstn_skipn. reflexivity.
      * constructor; [|assumption].
        unfold len in *. rewrite length_firstn. lia.
      * exact T.
Qed.

Lemma framing_length (l : bytes) frames tail :
  framing l frames tail -> (length frames <= length l)%nat.
Proof.
  revert l. induction frames as [|f frames IH]; intros l (E & F & T); simpl; [lia|].
  inversion F as [|? ? Hf Hfs]; subst.
  specialize (IH (concat frames ++ tail)).
  simpl. rewrite <- app_assoc, length_app.
  pose proof FRAME_BYTES_value. unfold len in Hf.
  assert (length frames <= length (concat frames ++ tail))%nat
    by (apply IH; repeat split; assumption).
  lia.
Qed.

(** ** The loop hands the handler the frames of the framing, in order *)

Section LoopFacts.
Context {St : Type}.
Variable handle : St -> bytes -> St * completion.
Variable keep_tail : St -> bytes -> St.

(** The frames given to the handler one after the other, up to the first
    call that does not return. *)
Fixpoint feed_frames (s : St) (frames : list bytes) : St * completion :=
  match frames with
  | [] => (s, Normal)
  | frame_bytes :: frames' =>
      match handle s frame_bytes with
      | (s', Normal) => feed_frames s' frames'
      | (s', stop) => (s', stop)
      end
  end.

Lemma feed_frames_app (s : St) (frames1 frames2 : list bytes) :
  feed_frames s (frames1 ++ frames2) =
    match feed_frames s frames1 with
    | (s', Normal) => feed_frames s' frames2
    | (s', stop) => (s', stop)
    end.
Proof.
  revert s. induction frames1 as [|f frames1 IH]; intros s; simpl; [reflexivity|].
  destruct (handle s f) as [s' []]; [apply IH | reflexivity | reflexivity].
Qed.

Lemma slice_from_len (audio_bytes : bytes) (offset : Z) :
  0 <= offset <= len audio_bytes ->
  len (slice_from audio_bytes offset) = len audio_bytes - offset.
Proof. intros Ho. unfold slice_from, len in *. rewrite length_skipn. lia. Qed.

Lemma frame_loop_framing (frames : list bytes) :
  forall (fuel : nat) (audio_bytes : bytes) (offset : Z) (s : St) (tail : bytes),
  0 <= offset <= len audio_bytes ->
  framing (slice_from audio_bytes offset) frames tail ->
  (length frames < fuel)%nat ->
  frame_loop handle keep_tail fuel audio_bytes offset s =
    match feed_frames s frames with
    | (s', Normal) =>
        (match tail with [] => s' | _ :: _ => keep_tail s' tail end, Normal)
    | (s', stop) => (s', stop)
    end.
Proof.
  pose proof FRAME_BYTES_value as HFB.
  induction frames as [|f frames IH]; intros fuel audio offset s tail Ho Hfr Hfuel.
  - destruct Hfr as (E & _ & T). simpl in E.
    pose proof (slice_from_len audio offset Ho) as Hl. rewrite E in Hl.
    destruct fuel as [|fuel]; [simpl in Hfuel; lia|]. simpl.
    destruct (Z.ltb_spec offset (len audio)) as [Hlt|Hge].
    + destruct (Z.leb_spec FRAME_BYTES (len audio - offset)) as [Hfull|Hshort]; [lia|].
      rewrite E. destruct tail as [|b tail]; [unfold len in *; simpl in Hl; lia|].
      reflexivity.
    + assert (tail = []) as -> by (apply len_nil_inv; lia). reflexivity.
  - destruct Hfr as (E & F & T). inversion F as [|? ? Hf Hfs]; subst.
    pose proof (slice_from_len audio offset Ho) as Hl. rewrite E in Hl.
    simpl in Hl. rewrite <- app_assoc, len_app in Hl.
    pose proof (len_nonneg (concat frames ++ tail)) as Hrest.
    destruct fuel as [|fuel]; [simpl in Hfuel; lia|].
    cbn [frame_loop feed_frames].
    destruct (Z.ltb_spec offset (len audio)) as [Hlt|Hge]; [|lia].
    destruct (Z.leb_spec FRAME_BYTES (len audio - offset)) as [Hfull|Hshort]; [|lia].
    assert (Hslice : slice audio offset (offset + FRAME_BYTES) = f).
    { unfold slice. unfold slice_from in E. rewrite E. simpl.
      rewrite <- app_assoc.
      replace (Z.to_nat (offset + FRAME_BYTES - offset)) with (length f)
        by (unfold len in Hf; lia).
      rewrite firstn_app, firstn_all, Nat.sub_diag. simpl. apply app_nil_r. }
    rewrite Hslice.
    destruct (handle s f) as [s' []]; [|reflexivity|reflexivity].
    apply IH.
    + lia.
    + repeat split; [|assumption|assumption].
      unfold slice_from in *.
      replace (Z.to_nat (offset + FRAME_BYTES)) with (Z.to_nat offset + length f)%nat
        by (unfold len in Hf; lia).
      rewrite Nat.add_comm, <- skipn_skipn, E. simpl.
      rewrite <- app_assoc, skipn_app, skipn_all, Nat.sub_diag. reflexivity.
    + simpl in Hfuel. lia.
Qed.

End LoopFacts.

Lemma feed_frames_log (frames : list bytes) :
  forall (acc : list bytes) (rest : bytes),
  feed_frames log_frame (acc, rest) frames = ((acc ++ frames, rest), Normal).
Proof.
  induction frames as [|f frames IH]; intros acc rest; simpl.
  - rewrite app_nil_r. reflexivity.
  - rewrite IH, <- app_assoc. reflexivity.
Qed.

(** The splitter computes the framing of the remainder followed by the
    chunk. *)
Lemma split_chunk_framing (remainder chunk : bytes) frames tail :
  framing (remainder ++ chunk) frames tail ->
  split_chunk remainder chunk = (frames, tail).
Proof.
  intros Hfr. unfold split_chunk.
  rewrite (frame_loop_framing log_frame log_tail frames _ _ _ _ tail).
  - rewrite feed_frames_log. simpl. destruct tail; reflexivity.
  - pose proof (len_nonneg (remainder ++ chunk)). lia.
  - exact Hfr.
  - pose proof (framing_length _ _ _ Hfr). lia.
Qed.

Lemma split_chunk_is_framing (remainder chunk : bytes) :
  framing (remainder ++ chunk) (fst (split_chunk remainder chunk))
    (snd (split_chunk remainder chunk)).
Proof.
  destruct (framing_exists (remainder ++ chunk)) as (frames & tail & Hfr).
  rewrite (split_chunk_framing _ _ _ _ Hfr). exact Hfr.
Qed.

(** ** The start condition over every window the deque can hold *)

(** The integers from [lo] to [hi]. *)
Definition Zrange (lo hi : Z) : list Z :=
  map (fun k => lo + Z.of_nat k) (seq 0 (Z.to_nat (hi - lo + 1))).

Lemma Zrange_In (lo hi x : Z) : lo <= x <= hi -> In x (Zrange lo hi).
Proof.
  intros Hx. unfold Zrange. apply in_map_iff.
  exists (Z.to_nat (x - lo)). split; [lia|]. apply in_seq. lia.
Qed.

(** The start condition as the specification words it: the ratio reaches
    the trigger ratio and the count reaches the ceiling of 0.60 times the
    fill. *)
Definition start_as_specified (speech_frames total_frames : Z) : bool :=
  (SPEECH_TRIGGER_RATIO <=? speech_ratio_of speech_frames total_frames)%float
  && (Qceiling ((60 # 100) * inject_Z total_frames) <=? speech_frames).

(** The release test of line 221. *)
Definition release_test (speech_frames total_frames : Z) : bool :=
  (speech_ratio_of speech_frames total_frames <? SPEECH_RELEASE_RATIO)%float.

Definition start_condition_agrees (speech_frames total_frames : Z) : bool :=
  match
    start_condition (speech_ratio_of speech_frames total_frames)
      speech_frames total_frames
  with
  | Some b => Bool.eqb b (start_as_specified speech_frames total_frames)
  | None => false
  end.

Lemma start_condition_checked :
  forallb (fun n => forallb (fun t => start_condition_agrees t n) (Zrange 0 n))
    (Zrange 1 15) = true.
Proof. vm_compute. reflexivity. Qed.

(** On a window of 1 to 15 decisions [int] never raises, and the floor the
    code takes and the ceiling the specification names decide alike, because
    the ratio test already forces the count above both. *)
Lemma start_condition_table (speech_frames total_frames : Z) :
  1 <= total_frames <= 15 -> 0 <= speech_frames <= total_frames ->
  start_condition (speech_ratio_of speech_frames total_frames)
    speech_frames total_frames
  = Some (start_as_specified speech_frames total_frames).
Proof.
  intros Hn Ht. pose proof start_condition_checked as Hc.
  rewrite forallb_forall in Hc. specialize (Hc _ (Zrange_In 1 15 _ Hn)).
  rewrite forallb_forall in Hc. specialize (Hc _ (Zrange_In 0 _ _ Ht)).
  unfold start_condition_agrees in Hc.
  destruct (start_condition _ _ _) as [b|]; [|discriminate].
  apply Bool.eqb_prop in Hc. congruence.
Qed.

(** A window without a speech decision never starts speech. *)
Lemma start_as_specified_zero (total_frames : Z) :
  1 <= total_frames <= 15 -> start_as_specified 0 total_frames = false.
Proof.
  intros Hn.
  assert (Hc : forallb (fun n => negb (start_as_specified 0 n)) (Zrange 1 15) = true)
    by (vm_compute; reflexivity).
  rewrite forallb_forall in Hc. specialize (Hc _ (Zrange_In 1 15 _ Hn)).
  destruct (start_as_specified 0 total_frames); [discriminate | reflexivity].
Qed.

(** The ratio test without floats: on every window the deque can hold, the
    binary64 comparison [speech_frames / total_frames >= 0.90] of line 201
    decides as the integer comparison [9 * total_frames <= 10 * speech_frames]
    does. *)
Lemma trigger_ratio_exact (speech_frames total_frames : Z) :
  1 <= total_frames <= 15 -> 0 <= speech_frames <= total_frames ->
  (SPEECH_TRIGGER_RATIO <=? speech_ratio_of speech_frames total_frames)%float
  = (9 * total_frames <=? 10 * speech_frames).
Proof.
  intros Hn Ht.
  assert (Hc : forallb (fun n => forallb (fun t =>
                  Bool.eqb (SPEECH_TRIGGER_RATIO <=? speech_ratio_of t n)%float
                           (9 * n <=? 10 * t)) (Zrange 0 n)) (Zrange 1 15) = true)
    by (vm_compute; reflexivity).
  rewrite forallb_forall in Hc. specialize (Hc _ (Zrange_In 1 15 _ Hn)).
  rewrite forallb_forall in Hc. specialize (Hc _ (Zrange_In 0 _ _ Ht)).
  apply Bool.eqb_prop in Hc. exact Hc.
Qed.

Lemma window_bounds (d : list bool) (b : bool) :
  let w := deque_append SPEECH_BUFFER_FRAMES d b in
  1 <= len w <= 15 /\ 0 <= count_true w <= len w.
Proof.
  intros w. pose proof (count_true_bounds w). pose proof (len_nonneg d).
  assert (len w = Z.min (len d + 1) SPEECH_BUFFER_FRAMES)
    by (apply deque_append_length; rewrite SPEECH_BUFFER_FRAMES_value; lia).
  rewrite SPEECH_BUFFER_FRAMES_value in *. lia.
Qed.

(** ** One frame *)

(** Case analysis on every test met while a frame is processed. *)
Ltac frame_cases :=
  repeat match goal with
  | |- context [if ?c then _ else _] => destruct c eqn:?
  | |- context [match ?c with Some _ => _ | None => _ end] => destruct c eqn:?
  | |- context [match ?c with Returned _ => _ | Raised => _ end] => destruct c eqn:?
  | |- context [let '(_, _) := ?c in _] => destruct c eqn:?
  end.

Section FrameFacts.
Context `{Collaborators}.

(** The state invariant of the data model: an Idle state has an empty
    speech buffer. *)
Definition idle_empty (state : VadState) : Prop :=
  in_speech state = false -> speech_buffer state = [].

(** The machine proper has no error path: with a window of at most 15
    decisions [int(0.6 * total_frames)] is always defined. *)
Lemma state_machine_start_condition (state : VadState) (frame_bytes : bytes)
    (is_speech : bool) :
  let w := vad_decision_buffer (push_frame state frame_bytes is_speech) in
  start_condition (speech_ratio_of (count_true w) (len w)) (count_true w) (len w)
  = Some (start_as_specified (count_true w) (len w)).
Proof.
  intros w. destruct (window_bounds (vad_decision_buffer state) is_speech).
  apply start_condition_table; assumption.
Qed.

Lemma state_machine_returns (cb : bool) (m : Machine) (model' : option Model)
    (frame_bytes : bytes) (is_speech : bool) :
  snd (state_machine cb m model' frame_bytes is_speech) = Normal.
Proof.
  unfold state_machine. cbv zeta. rewrite state_machine_start_condition.
  frame_cases; reflexivity.
Qed.

(** A frame ends in an exception exactly when the model was called and
    raised; fuel plays no part in it. *)
Lemma _process_frame_completion (cb : bool) (m : Machine) (frame_bytes : bytes) :
  snd (_process_frame cb m frame_bytes) = Normal \/
  snd (_process_frame cb m frame_bytes) = Exception.
Proof.
  unfold _process_frame.
  destruct (negb (len frame_bytes =? FRAME_BYTES)); [left; reflexivity|].
  destruct (if rms_below_gate frame_bytes then _ else _) as [[p|] model'].
  - left. apply state_machine_returns.
  - right. reflexivity.
Qed.

(** The callback receives at most one buffer per frame, never one shorter
    than the minimum. *)
Lemma state_machine_sent (cb : bool) (m : Machine) (model' : option Model)
    (frame_bytes : bytes) (is_speech : bool) :
  exists new,
    m_sent (fst (state_machine cb m model' frame_bytes is_speech)) = m_sent m ++ new /\
    Forall (fun u => MIN_UTTERANCE_SAMPLES * 2 <= len u) new.
Proof.
  unfold state_machine. cbv zeta. rewrite state_machine_start_condition.
  frame_cases; simpl;
    try (exists []; rewrite app_nil_r; split; [reflexivity | constructor]).
  eexists. split; [reflexivity|]. constructor; [|constructor].
  match goal with Hle : (_ <=? _) = true |- _ => apply Z.leb_le in Hle; exact Hle end.
Qed.

Lemma _process_frame_sent (cb : bool) (m : Machine) (frame_bytes : bytes) :
  exists new,
    m_sent (fst (_process_frame cb m frame_bytes)) = m_sent m ++ new /\
    Forall (fun u => MIN_UTTERANCE_SAMPLES * 2 <= len u) new.
Proof.
  unfold _process_frame.
  destruct (negb (len frame_bytes =? FRAME_BYTES)).
  { exists []. rewrite app_nil_r. split; [reflexivity | constructor]. }
  destruct (if rms_below_gate frame_bytes then _ else _) as [[p|] model'].
  - apply state_machine_sent.
  - exists []. rewrite app_nil_r. split; [reflexivity | constructor].
Qed.

Lemma state_machine_idle_empty (cb : bool) (m : Machine) (model' : option Model)
    (frame_bytes : bytes) (is_speech : bool) :
  idle_empty (m_state m) ->
  idle_empty (m_state (fst (state_machine cb m model' frame_bytes is_speech))).
Proof.
  unfold state_machine, idle_empty. cbv zeta.
  rewrite state_machine_start_condition.
  intros Hinv. frame_cases; simpl; intros Hidle;
    try (apply Hinv; assumption); try reflexivity; try discriminate.
  all: match goal with
       | Hn : negb (in_speech _) = false |- _ =>
           simpl in Hn; rewrite Hidle in Hn; discriminate
       end.
Qed.

Lemma _process_frame_idle_empty (cb : bool) (m : Machine) (frame_bytes : bytes) :
  idle_empty (m_state m) ->
  idle_empty (m_state (fst (_process_frame cb m frame_bytes))).
Proof.
  intros Hinv. unfold _process_frame.
  destruct (negb (len frame_bytes =? FRAME_BYTES)); [exact Hinv|].
  destruct (if rms_below_gate frame_bytes then _ else _) as [[p|] model'].
  - apply state_machine_idle_empty. exact Hinv.
  - exact Hinv.
Qed.

(** A frame leaves an empty stored remainder empty. *)
Lemma state_machine_partial (cb : bool) (m : Machine) (model' : option Model)
    (frame_bytes : bytes) (is_speech : bool) :
  partial_frame (m_state m) = [] ->
  partial_frame (m_state (fst (state_machine cb m model' frame_bytes is_speech))) = [].
Proof.
  unfold state_machine. cbv zeta. rewrite state_machine_start_condition.
  intros Hp. frame_cases; simpl; auto.
Qed.

Lemma _process_frame_partial (cb : bool) (m : Machine) (frame_bytes : bytes) :
  partial_frame (m_state m) = [] ->
  partial_frame (m_state (fst (_process_frame cb m frame_bytes))) = [].
Proof.
  intros Hp. unfold _process_frame.
  destruct (negb (len frame_bytes =? FRAME_BYTES)); [exact Hp|].
  destruct (if rms_below_gate frame_bytes then _ else _) as [[p|] model'].
  - apply state_machine_partial. exact Hp.
  - exact Hp.
Qed.

End FrameFacts.

(** ** One chunk: the frames of the splitter, fed in order *)

Lemma feed_frames_invariant {St : Type} (handle : St -> bytes -> St * completion)
    (P : St -> Prop) :
  (forall s f, P s -> P (fst (handle s f))) ->
  forall frames s, P s -> P (fst (feed_frames handle s frames)).
Proof.
  intros Hstep frames. induction frames as [|f frames IH]; intros s Hs; simpl.
  - exact Hs.
  - specialize (Hstep s f Hs). destruct (handle s f) as [s' []]; simpl in *; auto.
Qed.

Lemma set_partial_frame_same (state : VadState) (p : bytes) :
  partial_frame state = p -> set_partial_frame state p = state.
Proof. intros <-. destruct state; reflexivity. Qed.

Lemma set_partial_frame_twice (state : VadState) (p q : bytes) :
  set_partial_frame (set_partial_frame state p) q = set_partial_frame state q.
Proof. reflexivity. Qed.

Section ChunkFacts.
Context `{Collaborators}.

(** The state [get_state] returns for a connection: the stored one, or a
    fresh one. *)
Definition connection_state (self : VadService) (connection_id : string) : VadState :=
  default reset (connections self !! connection_id).

(** The machine the loop of [process_audio_chunk] starts from: the stored
    remainder has moved in front of the chunk. *)
Definition chunk_machine (self : VadService) (clock : nat) (connection_id : string)
  : Machine := {|
  m_state := set_partial_frame (connection_state self connection_id) [];
  m_model := model self;
  m_clock := clock;
  m_sent := []
|}.

Lemma get_state_connection_state (self : VadService) (connection_id : string) :
  snd (get_state self connection_id) = connection_state self connection_id.
Proof.
  unfold get_state, connection_state.
  destruct (connections self !! connection_id); reflexivity.
Qed.

Lemma feed_frames_partial (cb : bool) (frames : list bytes) (m : Machine) :
  partial_frame (m_state m) = [] ->
  partial_frame (m_state (fst (feed_frames (_process_frame cb) m frames))) = [].
Proof.
  apply (feed_frames_invariant (_process_frame cb)
           (fun m => partial_frame (m_state m) = [])).
  intros s f. apply _process_frame_partial.
Qed.

(** In segmentation mode a call feeds [_process_frame] the frames of
    [split_chunk], in order, and stores the remainder of [split_chunk] when
    all of them returned. *)
Lemma process_audio_chunk_frames (self : VadService) (clock : nat)
    (connection_id : string) (audio_bytes : bytes) (cb : bool) :
  vad_model_loaded self = true ->
  let state := connection_state self connection_id in
  let fr := split_chunk (partial_frame state) audio_bytes in
  let r := feed_frames (_process_frame cb)
             (chunk_machine self clock connection_id) (fst fr) in
  process_audio_chunk self clock connection_id audio_bytes cb =
    {| cr_self :=
         {| model := m_model (fst r);
            vad_model_loaded := true;
            connections :=
              <[connection_id :=
                  match snd r with
                  | Normal => set_partial_frame (m_state (fst r)) (snd fr)
                  | _ => m_state (fst r)
                  end]> (connections self) |};
       cr_clock := m_clock (fst r);
       cr_sent := m_sent (fst r);
       cr_done := snd r |}.
Proof.
  intros Hloaded state fr r.
  pose proof (split_chunk_is_framing (partial_frame state) audio_bytes) as Hfr.
  fold fr in Hfr.
  assert (Hr : feed_frames (_process_frame cb)
                 (chunk_machine self clock connection_id) (fst fr) = r)
    by reflexivity.
  clearbody r.
  unfold process_audio_chunk. rewrite Hloaded. simpl negb. cbv iota.
  assert (Hget : get_state self connection_id =
    ({| model := model self; vad_model_loaded := true;
        connections := match connections self !! connection_id with
                       | Some _ => connections self
                       | None => <[connection_id := reset]> (connections self)
                       end |}, state)).
  { unfold get_state, state, connection_state.
    destruct (connections self !! connection_id); simpl; [|rewrite Hloaded; reflexivity].
    destruct self; simpl in *. rewrite Hloaded. reflexivity. }
  rewrite Hget. clear Hget.
  assert (Hins : forall x : VadState,
    <[connection_id := x]> (match connections self !! connection_id with
                            | Some _ => connections self
                            | None => <[connection_id := reset]> (connections self)
                            end) = <[connection_id := x]> (connections self)).
  { intros x. destruct (connections self !! connection_id); [reflexivity|].
    apply insert_insert_eq. }
  assert (Hloop : forall audio st,
    audio = partial_frame state ++ audio_bytes ->
    st = set_partial_frame state [] ->
    frame_loop (_process_frame cb) keep_partial (S (length audio)) audio 0
      {| m_state := st; m_model := model self; m_clock := clock; m_sent := [] |}
    = (match snd r with
       | Normal =>
           {| m_state := set_partial_frame (m_state (fst r)) (snd fr);
              m_model := m_model (fst r);
              m_clock := m_clock (fst r);
              m_sent := m_sent (fst r) |}
       | _ => fst r
       end, snd r)).
  { intros audio st -> ->.
    rewrite (frame_loop_framing (_process_frame cb) keep_partial (fst fr) _ _ _ _ (snd fr)).
    - change {| m_state := set_partial_frame state []; m_model := model self;
                m_clock := clock; m_sent := [] |}
        with (chunk_machine self clock connection_id).
      pose proof (feed_frames_partial cb (fst fr)
                    (chunk_machine self clock connection_id) eq_refl) as Hp.
      rewrite Hr in *. destruct r as [m' []]; simpl in *; try reflexivity.
      destruct (snd fr) as [|b tail] eqn:Htail.
      + rewrite (set_partial_frame_same (m_state m') [] Hp). destruct m'; reflexivity.
      + unfold keep_partial. rewrite Hp. reflexivity.
    - pose proof (len_nonneg (partial_frame state ++ audio_bytes)). lia.
    - exact Hfr.
    - pose proof (framing_length _ _ _ Hfr). lia. }
  destruct (partial_frame state) as [|b p] eqn:Hp;
    cbn [model vad_model_loaded connections].
  - rewrite (Hloop audio_bytes state eq_refl)
      by (symmetry; apply set_partial_frame_same; exact Hp).
    simpl. rewrite Hins. destruct (snd r); reflexivity.
  - rewrite (Hloop ((b :: p) ++ audio_bytes) (set_partial_frame state []) eq_refl eq_refl).
    simpl. rewrite Hins. destruct (snd r); reflexivity.
Qed.

End ChunkFacts.

(** ** Invariants of the services a caller can reach *)

Section ServiceFacts.
Context `{Collaborators}.

(** What holds of every stored connection state: an Idle state has an empty
    speech buffer, and the stored remainder is shorter than a frame. *)
Definition state_ok (state : VadState) : Prop :=
  idle_empty state /\ len (partial_frame state) < FRAME_BYTES.

Definition service_ok (self : VadService) : Prop :=
  forall connection_id state,
    connections self !! connection_id = Some state -> state_ok state.

Lemma reset_ok : state_ok reset.
Proof. split; [intros _; reflexivity | vm_compute; reflexivity]. Qed.

Lemma connection_state_ok (self : VadService) (connection_id : string) :
  service_ok self -> state_ok (connection_state self connection_id).
Proof.
  intros Hok. unfold connection_state.
  destruct (connections self !! connection_id) as [state|] eqn:E; simpl.
  - exact (Hok _ _ E).
  - exact reset_ok.
Qed.

Lemma feed_frames_idle_empty (cb : bool) (frames : list bytes) (m : Machine) :
  idle_empty (m_state m) ->
  idle_empty (m_state (fst (feed_frames (_process_frame cb) m frames))).
Proof.
  apply (feed_frames_invariant (_process_frame cb) (fun m => idle_empty (m_state m))).
  intros s f. apply _process_frame_idle_empty.
Qed.

Lemma process_audio_chunk_ok (self : VadService) (clock : nat)
    (connection_id : string) (audio_bytes : bytes) (cb : bool) :
  service_ok self ->
  service_ok (cr_self (process_audio_chunk self clock connection_id audio_bytes cb)).
Proof.
  intros Hok. destruct (vad_model_loaded self) eqn:Hloaded.
  - rewrite process_audio_chunk_frames by exact Hloaded. cbv zeta. simpl.
    pose proof (connection_state_ok self connection_id Hok) as [Hidle Hpart].
    set (state := connection_state self connection_id) in *.
    set (fr := split_chunk (partial_frame state) audio_bytes).
    set (m0 := chunk_machine self clock connection_id).
    pose proof (split_chunk_is_framing (partial_frame state) audio_bytes) as (_ & _ & Htail).
    fold fr in Htail.
    assert (Hidle' : idle_empty (m_state (fst (feed_frames (_process_frame cb) m0 (fst fr))))).
    { apply feed_frames_idle_empty. exact Hidle. }
    assert (Hpart' : partial_frame (m_state (fst (feed_frames (_process_frame cb) m0 (fst fr)))) = []).
    { apply feed_frames_partial. reflexivity. }
    intros cid st Hlook. cbn [connections] in Hlook.
    destruct (decide (connection_id = cid)) as [->|Hne].
    + rewrite lookup_insert_eq in Hlook. injection Hlook as <-.
      destruct (snd (feed_frames (_process_frame cb) m0 (fst fr))).
      * split; [exact Hidle' | exact Htail].
      * split; [exact Hidle' | rewrite Hpart'; vm_compute; reflexivity].
      * split; [exact Hidle' | rewrite Hpart'; vm_compute; reflexivity].
    + rewrite lookup_insert_ne in Hlook by exact Hne. exact (Hok _ _ Hlook).
  - unfold process_audio_chunk. rewrite Hloaded. simpl. exact Hok.
Qed.

Lemma cleanup_connection_ok (self : VadService) (connection_id : string) :
  service_ok self -> service_ok (cleanup_connection self connection_id).
Proof.
  intros Hok. unfold cleanup_connection.
  destruct (connections self !! connection_id) eqn:E; [|exact Hok].
  intros cid st Hlook. cbn [connections] in Hlook.
  apply lookup_delete_Some in Hlook as [_ Hlook]. exact (Hok _ _ Hlook).
Qed.

Lemma reachable_ok (self : VadService) (clock : nat) :
  reachable self clock -> service_ok self.
Proof.
  intros (torch & hub & Hreach). induction Hreach.
  - intros cid st Hlook. unfold VadService_init in Hlook.
    destruct torch; [destruct hub|]; simpl in Hlook;
      rewrite lookup_empty in Hlook; discriminate.
  - apply process_audio_chunk_ok. assumption.
  - apply cleanup_connection_ok. assumption.
Qed.

(** The fuel given to the loop always suffices: a call returns or raises. *)
Lemma process_audio_chunk_completion (self : VadService) (clock : nat)
    (connection_id : string) (audio_bytes : bytes) (cb : bool) :
  cr_done (process_audio_chunk self clock connection_id audio_bytes cb) = Normal \/
  cr_done (process_audio_chunk self clock connection_id audio_bytes cb) = Exception.
Proof.
  destruct (vad_model_loaded self) eqn:Hloaded.
  - rewrite process_audio_chunk_frames by exact Hloaded. cbv zeta. cbn [cr_done].
    generalize (chunk_machine self clock connection_id).
    induction (fst (split_chunk _ audio_bytes)) as [|f frames IH]; intros m; simpl.
    + left. reflexivity.
    + destruct (_process_frame_completion cb m f) as [Hc|Hc];
        destruct (_process_frame cb m f) as [m' c]; simpl in Hc; subst c.
      * apply IH.
      * right. reflexivity.
  - unfold process_audio_chunk. rewrite Hloaded. left. reflexivity.
Qed.

(** The mode chosen by the constructor never changes. *)
Lemma reachable_from_loaded (start self : VadService) (clock : nat) :
  reachable_from start self clock ->
  vad_model_loaded self = vad_model_loaded start.
Proof.
  induction 1 as [clock|self clock cid audio cb Hreach IH|self clock cid Hreach IH].
  - reflexivity.
  - rewrite <- IH. destruct (vad_model_loaded self) eqn:Hloaded.
    + rewrite process_audio_chunk_frames by exact Hloaded. reflexivity.
    + unfold process_audio_chunk. rewrite Hloaded. simpl. exact Hloaded.
  - rewrite <- IH. unfold cleanup_connection.
    destruct (connections self !! cid); reflexivity.
Qed.

(** A service built without the model stays as the constructor left it. *)
Lemma reachable_from_passthrough (start self : VadService) (clock : nat) :
  vad_model_loaded start = false -> connections start = ∅ ->
  reachable_from start self clock -> self = start.
Proof.
  intros Hmode Hempty.
  induction 1 as [clock|self clock cid audio cb Hreach IH|self clock cid Hreach IH].
  - reflexivity.
  - subst self. unfold process_audio_chunk. rewrite Hmode. reflexivity.
  - subst self. unfold cleanup_connection. rewrite Hempty, lookup_empty. reflexivity.
Qed.

End ServiceFacts.

(** ** Frames met while Speaking, and frames met while Idle *)

Section MachineFacts.
Context `{Collaborators}.

(** A frame met while Speaking is skipped or fails and leaves the state
    alone, or joins the speech buffer, or ends the utterance: then the state is
    reset and the buffer with the frame goes to the callback when it is long
    enough and the callback exists. *)
Lemma speaking_frame (cb : bool) (m m' : Machine) (frame_bytes : bytes) (c : completion) :
  in_speech (m_state m) = true ->
  _process_frame cb m frame_bytes = (m', c) ->
  (m_state m' = m_state m /\ m_sent m' = m_sent m)
  \/ (c = Normal /\ in_speech (m_state m') = true /\
      speech_buffer (m_state m') = speech_buffer (m_state m) ++ frame_bytes /\
      m_sent m' = m_sent m)
  \/ (c = Normal /\ m_state m' = reset /\
      m_sent m' =
        if MIN_UTTERANCE_SAMPLES * 2 <=? len (speech_buffer (m_state m) ++ frame_bytes)
        then if cb then m_sent m ++ [speech_buffer (m_state m) ++ frame_bytes]
             else m_sent m
        else m_sent m).
Proof.
  intros Hsp. unfold _process_frame.
  destruct (negb (len frame_bytes =? FRAME_BYTES)).
  { intros [= <- <-]. left. split; reflexivity. }
  destruct (if rms_below_gate frame_bytes then _ else _) as [[p|] model'].
  2: { intros [= <- <-]. left. split; reflexivity. }
  unfold state_machine. cbv zeta. cbn [push_frame in_speech].
  rewrite Hsp. cbn [negb].
  destruct (_ <? _)%float.
  - destruct (_ =? TRAILING_SILENCE_FRAMES).
    + intros [= <- <-]. right. right. cbn. repeat split.
    + intros [= <- <-]. right. left. cbn. repeat split. exact Hsp.
  - intros [= <- <-]. right. left. cbn. repeat split. exact Hsp.
Qed.

(** A frame met while Idle after which the machine is Speaking: the
    pre-speech ring ends with the frame, and the speech buffer took the
    whole ring and then the frame again. *)
Lemma onset_frame (cb : bool) (m m' : Machine) (frame_bytes : bytes) (c : completion) :
  in_speech (m_state m) = false ->
  _process_frame cb m frame_bytes = (m', c) ->
  in_speech (m_state m') = true ->
  exists older,
    pre_speech_buffer (m_state m') = older ++ [frame_bytes] /\
    speech_buffer (m_state m') =
      speech_buffer (m_state m) ++ concat older ++ frame_bytes ++ frame_bytes.
Proof.
  intros Hidle. unfold _process_frame.
  destruct (negb (len frame_bytes =? FRAME_BYTES)).
  { intros [= <- <-] Hsp. congruence. }
  destruct (if rms_below_gate frame_bytes then _ else _) as [[p|] model'].
  2: { intros [= <- <-] Hsp. simpl in Hsp. congruence. }
  unfold state_machine. cbv zeta. rewrite state_machine_start_condition.
  cbn [push_frame in_speech vad_decision_buffer]. rewrite Hidle. cbn [negb].
  destruct (start_as_specified _ _).
  - intros [= <- <-] _. cbn.
    destruct (deque_append_last PRE_SPEECH_FRAMES (pre_speech_buffer (m_state m))
                frame_bytes) as (older & E & _).
    { rewrite PRE_SPEECH_FRAMES_value. lia. }
    exists older. split; [exact E|].
    rewrite E, concat_app. simpl. rewrite app_nil_r, <- !app_assoc. reflexivity.
  - intros [= <- <-] Hsp. simpl in Hsp. congruence.
Qed.

(** Every frame of the run returns and leaves the machine Speaking. *)
Fixpoint stays_speaking (cb : bool) (m : Machine) (frames : list bytes) : Prop :=
  match frames with
  | [] => True
  | frame_bytes :: frames' =>
      snd (_process_frame cb m frame_bytes) = Normal /\
      in_speech (m_state (fst (_process_frame cb m frame_bytes))) = true /\
      stays_speaking cb (fst (_process_frame cb m frame_bytes)) frames'
  end.

(** While the machine stays Speaking the speech buffer only grows at its
    end. *)
Lemma stays_speaking_extends (cb : bool) (frames : list bytes) (m : Machine) :
  in_speech (m_state m) = true ->
  stays_speaking cb m frames ->
  in_speech (m_state (fst (feed_frames (_process_frame cb) m frames))) = true /\
  exists later,
    speech_buffer (m_state (fst (feed_frames (_process_frame cb) m frames))) =
      speech_buffer (m_state m) ++ later.
Proof.
  revert m. induction frames as [|f frames IH]; intros m Hsp Hrun; simpl.
  - split; [exact Hsp|]. exists []. rewrite app_nil_r. reflexivity.
  - destruct Hrun as (Hc & Hsp' & Hrun).
    destruct (_process_frame cb m f) as [m' c] eqn:E. simpl in Hc, Hsp', Hrun. subst c.
    destruct (IH m' Hsp' Hrun) as (Hsp'' & later & Hlater).
    split; [exact Hsp''|].
    destruct (speaking_frame cb m m' f Normal Hsp E)
      as [[Hst _] | [(_ & _ & Hbuf & _) | (_ & Hst & _)]].
    + exists later. rewrite Hlater, Hst. reflexivity.
    + exists (f ++ later). rewrite Hlater, Hbuf, <- app_assoc. reflexivity.
    + rewrite Hst in Hsp'. discriminate.
Qed.

End MachineFacts.

(** ** Streams of chunks *)

(** The frames of a remainder followed by two chunks are the frames of the
    first chunk, then the frames of the second after the remainder the first
    left. *)
Lemma split_chunk_app (remainder chunk1 chunk2 : bytes) :
  split_chunk remainder (chunk1 ++ chunk2) =
    (fst (split_chunk remainder chunk1)
       ++ fst (split_chunk (snd (split_chunk remainder chunk1)) chunk2),
     snd (split_chunk (snd (split_chunk remainder chunk1)) chunk2)).
Proof.
  apply split_chunk_framing. rewrite app_assoc.
  eapply framing_app; apply split_chunk_is_framing.
Qed.

Lemma split_chunk_short (remainder : bytes) :
  len remainder < FRAME_BYTES -> split_chunk remainder [] = ([], remainder).
Proof.
  intros Hshort. apply split_chunk_framing. rewrite app_nil_r.
  repeat split; [constructor | exact Hshort].
Qed.

Section StreamFacts.
Context `{Collaborators}.

(** A machine that has heard nothing but silence: Idle, with a window of
    non-speech decisions. *)
Definition quiet (state : VadState) : Prop :=
  in_speech state = false /\ Forall (fun b => b = false) (vad_decision_buffer state).

Lemma quiet_frame (cb : bool) (m : Machine) (frame_bytes : bytes) :
  quiet (m_state m) ->
  len frame_bytes = FRAME_BYTES ->
  rms_below_gate frame_bytes = true ->
  snd (_process_frame cb m frame_bytes) = Normal /\
  quiet (m_state (fst (_process_frame cb m frame_bytes))) /\
  m_sent (fst (_process_frame cb m frame_bytes)) = m_sent m /\
  m_model (fst (_process_frame cb m frame_bytes)) = m_model m /\
  m_clock (fst (_process_frame cb m frame_bytes)) = m_clock m.
Proof.
  intros [Hidle Hwin] Hlen Hgate. unfold _process_frame.
  rewrite Hlen, Z.eqb_refl, Hgate. cbn [negb].
  change (is_speech_of 0) with false.
  unfold state_machine. cbv zeta. rewrite state_machine_start_condition.
  cbn [push_frame in_speech vad_decision_buffer]. rewrite Hidle. cbn [negb].
  assert (Hwin' : Forall (fun b => b = false)
            (deque_append SPEECH_BUFFER_FRAMES (vad_decision_buffer (m_state m)) false))
    by (apply deque_append_Forall; [exact Hwin | reflexivity]).
  rewrite (count_true_all_false _ Hwin').
  rewrite start_as_specified_zero
    by (apply (window_bounds (vad_decision_buffer (m_state m)) false)).
  cbn. repeat split; assumption.
Qed.

Lemma quiet_frames (cb : bool) (frames : list bytes) (m : Machine) :
  quiet (m_state m) ->
  Forall (fun f => len f = FRAME_BYTES) frames ->
  Forall (fun f => rms_below_gate f = true) frames ->
  snd (feed_frames (_process_frame cb) m frames) = Normal /\
  quiet (m_state (fst (feed_frames (_process_frame cb) m frames))) /\
  m_sent (fst (feed_frames (_process_frame cb) m frames)) = m_sent m /\
  m_model (fst (feed_frames (_process_frame cb) m frames)) = m_model m /\
  m_clock (fst (feed_frames (_process_frame cb) m frames)) = m_clock m.
Proof.
  revert m. induction frames as [|f frames IH]; intros m Hq Hlen Hgate; simpl.
  - repeat split; apply Hq.
  - inversion Hlen as [|? ? Hf Hlen']; inversion Hgate as [|? ? Hg Hgate']; subst.
    destruct (quiet_frame cb m f Hq Hf Hg) as (Hc & Hq' & Hs & Hm & Hk).
    destruct (_process_frame cb m f) as [m' c]. simpl in *. subst c.
    rewrite <- Hs, <- Hm, <- Hk. apply IH; assumption.
Qed.

(** A stream whose complete frames are all below the noise gate leaves a
    quiet connection quiet: every call returns, the callback is not called,
    the model is not called and the clock is not read. *)
Lemma quiet_stream (cb : bool) (connection_id : string) (chunks : list bytes) :
  forall (self : VadService) (clock : nat),
  vad_model_loaded self = true ->
  quiet (connection_state self connection_id) ->
  Forall (fun f => rms_below_gate f = true)
    (fst (split_chunk (partial_frame (connection_state self connection_id))
            (concat chunks))) ->
  let r := process_audio_chunks self clock connection_id chunks cb in
  cr_done r = Normal /\ cr_sent r = [] /\
  quiet (connection_state (cr_self r) connection_id) /\
  model (cr_self r) = model self /\ cr_clock r = clock.
Proof.
  induction chunks as [|chunk chunks IH]; intros self clock Hloaded Hq Hgate.
  - simpl. repeat split; apply Hq.
  - cbn [process_audio_chunks]. cbv zeta.
    simpl concat in Hgate. rewrite split_chunk_app in Hgate. cbn [fst] in Hgate.
    apply Forall_app in Hgate as [Hgate1 Hgate2].
    set (state := connection_state self connection_id) in *.
    pose proof (split_chunk_is_framing (partial_frame state) chunk) as (_ & Hlen1 & _).
    rewrite (process_audio_chunk_frames self clock connection_id chunk cb Hloaded).
    cbv zeta. fold state.
    destruct (quiet_frames cb (fst (split_chunk (partial_frame state) chunk))
                (chunk_machine self clock connection_id) Hq Hlen1 Hgate1)
      as (Hc & Hq' & Hs & Hm & Hk).
    set (r1 := feed_frames (_process_frame cb) (chunk_machine self clock connection_id)
                 (fst (split_chunk (partial_frame state) chunk))) in *.
    cbn [cr_done cr_self cr_clock cr_sent]. rewrite Hc, Hs, Hm, Hk.
    cbn [chunk_machine m_sent m_model m_clock app].
    match goal with
    | |- context [process_audio_chunks ?s _ _ _ _] => set (self' := s)
    end.
    assert (Hstate' : connection_state self' connection_id =
                      set_partial_frame (m_state (fst r1))
                        (snd (split_chunk (partial_frame state) chunk))).
    { unfold connection_state, self'. cbn [connections].
      rewrite lookup_insert_eq. reflexivity. }
    destruct (IH self' clock) as (Hc2 & Hs2 & Hq2 & Hm2 & Hk2).
    + reflexivity.
    + rewrite Hstate'. exact Hq'.
    + rewrite Hstate'. exact Hgate2.
    + cbn [cr_done cr_self cr_clock cr_sent]. repeat split; try assumption.
      * apply Hq2.
      * apply Hq2.
Qed.

End StreamFacts.

(** ** Two calls against one *)

Section SplitFacts.
Context `{Collaborators}.

(** The machine with another record of callback calls. *)
Definition with_sent (m : Machine) (sent : list bytes) : Machine := {|
  m_state := m_state m;
  m_model := m_model m;
  m_clock := m_clock m;
  m_sent := sent
|}.

(** A frame only appends to the record of callback calls: what was
    recorded before plays no part. *)
Lemma state_machine_with_sent (cb : bool) (m : Machine) (model' : option Model)
    (frame_bytes : bytes) (is_speech : bool) (earlier : list bytes) :
  state_machine cb (with_sent m (earlier ++ m_sent m)) model' frame_bytes is_speech =
    (with_sent (fst (state_machine cb m model' frame_bytes is_speech))
       (earlier ++ m_sent (fst (state_machine cb m model' frame_bytes is_speech))),
     snd (state_machine cb m model' frame_bytes is_speech)).
Proof.
  unfold state_machine, with_sent. cbv zeta.
  cbn [m_state m_model m_clock m_sent].
  rewrite state_machine_start_condition.
  frame_cases; cbn [fst snd m_state m_model m_clock m_sent];
    rewrite ?app_assoc; reflexivity.
Qed.

Lemma _process_frame_with_sent (cb : bool) (m : Machine) (frame_bytes : bytes)
    (earlier : list bytes) :
  _process_frame cb (with_sent m (earlier ++ m_sent m)) frame_bytes =
    (with_sent (fst (_process_frame cb m frame_bytes))
       (earlier ++ m_sent (fst (_process_frame cb m frame_bytes))),
     snd (_process_frame cb m frame_bytes)).
Proof.
  unfold _process_frame.
  destruct (negb (len frame_bytes =? FRAME_BYTES)); [reflexivity|].
  cbn [with_sent m_model].
  destruct (if rms_below_gate frame_bytes then _ else _) as [[p|] model'].
  - apply state_machine_with_sent.
  - reflexivity.
Qed.

Lemma feed_frames_with_sent (cb : bool) (frames : list bytes) :
  forall (m : Machine) (earlier : list bytes),
  feed_frames (_process_frame cb) (with_sent m (earlier ++ m_sent m)) frames =
    (with_sent (fst (feed_frames (_process_frame cb) m frames))
       (earlier ++ m_sent (fst (feed_frames (_process_frame cb) m frames))),
     snd (feed_frames (_process_frame cb) m frames)).
Proof.
  induction frames as [|f frames IH]; intros m earlier; simpl; [reflexivity|].
  rewrite _process_frame_with_sent.
  destruct (_process_frame cb m f) as [m' []]; cbn [fst snd]; [apply IH | | ];
    reflexivity.
Qed.

(** A call that returns, followed by a second call, does what one call does
    with the two chunks joined. *)
Lemma process_audio_chunk_app (self : VadService) (clock : nat)
    (connection_id : string) (chunk1 chunk2 : bytes) (cb : bool) :
  vad_model_loaded self = true ->
  cr_done (process_audio_chunk self clock connection_id chunk1 cb) = Normal ->
  let r1 := process_audio_chunk self clock connection_id chunk1 cb in
  let r2 := process_audio_chunk (cr_self r1) (cr_clock r1) connection_id chunk2 cb in
  process_audio_chunk self clock connection_id (chunk1 ++ chunk2) cb =
    {| cr_self := cr_self r2;
       cr_clock := cr_clock r2;
       cr_sent := cr_sent r1 ++ cr_sent r2;
       cr_done := cr_done r2 |}.
Proof.
  intros Hloaded. cbv zeta.
  rewrite (process_audio_chunk_frames self clock connection_id (chunk1 ++ chunk2) cb Hloaded).
  rewrite (process_audio_chunk_frames self clock connection_id chunk1 cb Hloaded).
  cbv zeta. cbn [cr_done cr_self cr_clock cr_sent].
  set (state := connection_state self connection_id).
  set (m0 := chunk_machine self clock connection_id).
  rewrite split_chunk_app. cbn [fst snd].
  set (frames1 := fst (split_chunk (partial_frame state) chunk1)).
  set (tail1 := snd (split_chunk (partial_frame state) chunk1)).
  rewrite feed_frames_app.
  pose proof (feed_frames_partial cb frames1 m0 eq_refl) as Hp1.
  destruct (feed_frames (_process_frame cb) m0 frames1) as [m1 c1] eqn:E1.
  cbn [fst snd] in *. intros ->.
  match goal with
  | |- context [process_audio_chunk ?s _ _ _ _] => set (self1 := s)
  end.
  assert (Hstate1 : connection_state self1 connection_id = set_partial_frame (m_state m1) tail1).
  { unfold connection_state, self1. cbn [connections].
    rewrite lookup_insert_eq. reflexivity. }
  rewrite (process_audio_chunk_frames self1 (m_clock m1) connection_id chunk2 cb eq_refl).
  cbv zeta. rewrite Hstate1.
  cbn [partial_frame set_partial_frame].
  set (frames2 := fst (split_chunk tail1 chunk2)).
  set (tail2 := snd (split_chunk tail1 chunk2)).
  assert (Hm : chunk_machine self1 (m_clock m1) connection_id = with_sent m1 []).
  { unfold chunk_machine, with_sent. rewrite Hstate1, set_partial_frame_twice.
    rewrite (set_partial_frame_same (m_state m1) [] Hp1). reflexivity. }
  rewrite Hm.
  assert (Hm1 : m1 = with_sent (with_sent m1 []) (m_sent m1 ++ m_sent (with_sent m1 []))).
  { unfold with_sent. cbn. rewrite app_nil_r. destruct m1; reflexivity. }
  assert (Hfeed : feed_frames (_process_frame cb) m1 frames2 =
    (with_sent (fst (feed_frames (_process_frame cb) (with_sent m1 []) frames2))
       (m_sent m1 ++
        m_sent (fst (feed_frames (_process_frame cb) (with_sent m1 []) frames2))),
     snd (feed_frames (_process_frame cb) (with_sent m1 []) frames2))).
  { rewrite Hm1 at 1. apply feed_frames_with_sent. }
  rewrite Hfeed.
  cbn [fst snd with_sent m_state m_model m_clock m_sent cr_self cr_clock cr_sent
       cr_done connections].
  unfold self1. cbn [connections]. rewrite insert_insert_eq. reflexivity.
Qed.

(** Successive calls that all return do what one call does with the chunks
    joined. *)
Lemma process_audio_chunks_join (connection_id : string) (cb : bool)
    (chunks : list bytes) :
  forall (chunk : bytes) (self : VadService) (clock : nat),
  vad_model_loaded self = true ->
  cr_done (process_audio_chunks self clock connection_id (chunk :: chunks) cb) = Normal ->
  process_audio_chunks self clock connection_id (chunk :: chunks) cb =
    process_audio_chunk self clock connection_id (concat (chunk :: chunks)) cb.
Proof.
  induction chunks as [|chunk2 chunks IH]; intros chunk self clock Hloaded Hdone.
  - cbn [process_audio_chunks concat] in *. rewrite (app_nil_r chunk).
    destruct (process_audio_chunk self clock connection_id chunk cb) as [s k sent d].
    cbn [cr_done cr_self cr_clock cr_sent] in *.
    destruct d; cbn [cr_done] in Hdone; try discriminate.
    rewrite app_nil_r. reflexivity.
  - change (concat (chunk :: chunk2 :: chunks))
      with (chunk ++ concat (chunk2 :: chunks)).
    cbn [process_audio_chunks] in Hdone |- *.
    destruct (cr_done (process_audio_chunk self clock connection_id chunk cb)) eqn:E1.
    + cbn [cr_done] in Hdone.
      rewrite (process_audio_chunk_app self clock connection_id chunk _ cb Hloaded E1).
      cbv zeta.
      assert (Hloaded1 : vad_model_loaded
                (cr_self (process_audio_chunk self clock connection_id chunk cb)) = true).
      { rewrite process_audio_chunk_frames by exact Hloaded. reflexivity. }
      rewrite <- (IH chunk2 _ _ Hloaded1 Hdone). reflexivity.
    + rewrite E1 in Hdone. discriminate.
    + rewrite E1 in Hdone. discriminate.
Qed.

End SplitFacts.

Lemma split_chunks_join (chunks : list bytes) :
  forall remainder : bytes,
  len remainder < FRAME_BYTES ->
  split_chunks remainder chunks = split_chunk remainder (concat chunks).
Proof.
  induction chunks as [|chunk chunks IH]; intros remainder Hshort.
  - simpl. symmetry. apply split_chunk_short. exact Hshort.
  - cbn [split_chunks concat]. rewrite split_chunk_app.
    pose proof (split_chunk_is_framing remainder chunk) as (_ & _ & Hshort').
    destruct (split_chunk remainder chunk) as [frames remainder']. cbn [fst snd] in *.
    rewrite (IH remainder' Hshort').
    destruct (split_chunk remainder' (concat chunks)). reflexivity.
Qed.

(** ** The control of the machine, without the bytes *)

(** What decides the moves of the machine: the mode, the decision window,
    how many frames the pre-speech and trailing rings hold, and how many
    bytes the speech buffer holds. *)
Record Control : Type := {
  c_in_speech : bool;
  c_window : list bool;
  c_pre : Z;
  c_trailing : Z;
  c_bytes : Z
}.

(** One complete frame with decision [is_speech], on the control alone;
    the second component lists the lengths of the buffers given to the
    callback. *)
Definition control_step (cb : bool) (c : Control) (is_speech : bool)
  : Control * list Z :=
  let window := deque_append SPEECH_BUFFER_FRAMES (c_window c) is_speech in
  let pre := Z.min (c_pre c + 1) PRE_SPEECH_FRAMES in
  let speech_frames := count_true window in
  let total_frames := len window in
  if negb (c_in_speech c) then
    if start_as_specified speech_frames total_frames then
      ({| c_in_speech := true; c_window := window; c_pre := pre; c_trailing := 0;
          c_bytes := c_bytes c + pre * FRAME_BYTES + FRAME_BYTES |}, [])
    else
      ({| c_in_speech := false; c_window := window; c_pre := pre;
          c_trailing := c_trailing c; c_bytes := c_bytes c |}, [])
  else if release_test speech_frames total_frames then
    let trailing := Z.min (c_trailing c + 1) TRAILING_SILENCE_FRAMES in
    let total_bytes := c_bytes c + FRAME_BYTES in
    if trailing =? TRAILING_SILENCE_FRAMES then
      ({| c_in_speech := false; c_window := []; c_pre := 0; c_trailing := 0;
          c_bytes := 0 |},
       if MIN_UTTERANCE_SAMPLES * 2 <=? total_bytes
       then if cb then [total_bytes] else []
       else [])
    else
      ({| c_in_speech := true; c_window := window; c_pre := pre;
          c_trailing := trailing; c_bytes := total_bytes |}, [])
  else
    ({| c_in_speech := true; c_window := window; c_pre := pre; c_trailing := 0;
        c_bytes := c_bytes c + FRAME_BYTES |}, []).

(** The control over successive decisions. *)
Fixpoint control_run (cb : bool) (c : Control) (decisions : list bool)
  : Control * list Z :=
  match decisions with
  | [] => (c, [])
  | is_speech :: decisions' =>
      let '(c', sent) := control_step cb c is_speech in
      let '(c'', sent') := control_run cb c' decisions' in
      (c'', sent ++ sent')
  end.

(** The control of a fresh state. *)
Definition control_reset : Control :=
  {| c_in_speech := false; c_window := []; c_pre := 0; c_trailing := 0; c_bytes := 0 |}.

(** [abstracts state c]: [c] is the control of [state], whose pre-speech
    ring holds complete frames. *)
Definition abstracts (state : VadState) (c : Control) : Prop :=
  in_speech state = c_in_speech c /\
  vad_decision_buffer state = c_window c /\
  len (pre_speech_buffer state) = c_pre c /\
  Forall (fun f => len f = FRAME_BYTES) (pre_speech_buffer state) /\
  len (trailing_silence_buffer state) = c_trailing c /\
  len (speech_buffer state) = c_bytes c /\
  (c = control_reset -> state = set_partial_frame reset (partial_frame state)).

Lemma len_concat_frames (frames : list bytes) :
  Forall (fun f => len f = FRAME_BYTES) frames ->
  len (concat frames) = len frames * FRAME_BYTES.
Proof.
  induction 1 as [|f frames Hf _ IH]; [reflexivity|].
  simpl. rewrite len_app, IH, Hf. unfold len. simpl length. lia.
Qed.

(** Reduces the field accesses on explicit records, and nothing else. *)
Ltac fields_cbn :=
  cbn [in_speech vad_decision_buffer pre_speech_buffer trailing_silence_buffer
       speech_buffer partial_frame speech_start_time current_utterance_id
       c_in_speech c_window c_pre c_trailing c_bytes
       m_state m_model m_clock m_sent fst snd
       push_frame start_speech continue_speech set_partial_frame].

Section ControlFacts.
Context `{Collaborators}.

(** The machine follows its control. *)
Lemma control_simulation (cb : bool) (m : Machine) (model' : option Model)
    (frame_bytes : bytes) (is_speech : bool) (c : Control) :
  abstracts (m_state m) c ->
  len frame_bytes = FRAME_BYTES ->
  snd (state_machine cb m model' frame_bytes is_speech) = Normal /\
  m_model (fst (state_machine cb m model' frame_bytes is_speech)) = model' /\
  abstracts (m_state (fst (state_machine cb m model' frame_bytes is_speech)))
    (fst (control_step cb c is_speech)) /\
  exists new,
    m_sent (fst (state_machine cb m model' frame_bytes is_speech)) = m_sent m ++ new /\
    map len new = snd (control_step cb c is_speech).
Proof.
  intros (Hin & Hwin & Hpre & Hframes & Htrail & Hbytes & _) Hlen.
  pose proof FRAME_BYTES_value as HFB.
  pose proof PRE_SPEECH_FRAMES_value as HPF.
  pose proof TRAILING_SILENCE_FRAMES_value as HTF.
  assert (Hpre' : len (deque_append PRE_SPEECH_FRAMES (pre_speech_buffer (m_state m))
                         frame_bytes) = Z.min (c_pre c + 1) PRE_SPEECH_FRAMES)
    by (rewrite deque_append_length, Hpre by lia; reflexivity).
  assert (Hframes' : Forall (fun f => len f = FRAME_BYTES)
            (deque_append PRE_SPEECH_FRAMES (pre_speech_buffer (m_state m)) frame_bytes))
    by (apply deque_append_Forall; assumption).
  assert (Htrail' : len (deque_append TRAILING_SILENCE_FRAMES
                           (trailing_silence_buffer (m_state m)) frame_bytes)
                    = Z.min (c_trailing c + 1) TRAILING_SILENCE_FRAMES)
    by (rewrite deque_append_length, Htrail by lia; reflexivity).
  destruct (window_bounds (c_window c) is_speech) as [Hn _].
  assert (Hnot_reset : forall a b d e,
    {| c_in_speech := a;
       c_window := deque_append SPEECH_BUFFER_FRAMES (c_window c) is_speech;
       c_pre := b; c_trailing := d; c_bytes := e |} = control_reset -> False).
  { intros a b d e [= _ Hw _ _ _]. rewrite Hw in Hn. unfold len in Hn. simpl in Hn. lia. }
  unfold state_machine, control_step, release_test. cbv zeta.
  rewrite state_machine_start_condition.
  cbn [push_frame continue_speech start_speech in_speech vad_decision_buffer
       trailing_silence_buffer speech_buffer pre_speech_buffer].
  rewrite Hin, Hwin, Htrail', !len_app, Hbytes, Hlen.
  destruct (c_in_speech c); cbn [negb].
  - destruct (_ <? _)%float.
    + destruct (_ =? TRAILING_SILENCE_FRAMES).
      * cbn [fst snd m_state m_model m_sent]. split; [reflexivity|]. split; [reflexivity|].
        split.
        { repeat split; try reflexivity. constructor. }
        destruct (_ <=? _); [destruct cb|].
        -- eexists. split; [reflexivity|]. cbn [map]. rewrite len_app, Hbytes, Hlen. reflexivity.
        -- exists []. rewrite app_nil_r. split; reflexivity.
        -- exists []. rewrite app_nil_r. split; reflexivity.
      * cbn [fst snd m_state m_model m_sent]. split; [reflexivity|]. split; [reflexivity|].
        split.
        { repeat split; fields_cbn; try assumption; try reflexivity;
          try (rewrite Hwin; reflexivity).
          - rewrite len_app, Hbytes, Hlen. reflexivity.
          - intros E. destruct (Hnot_reset _ _ _ _ E). }
        exists []. rewrite app_nil_r. split; reflexivity.
    + cbn [fst snd m_state m_model m_sent]. split; [reflexivity|]. split; [reflexivity|].
      split.
      { repeat split; fields_cbn; try assumption; try reflexivity;
          try (rewrite Hwin; reflexivity).
        - rewrite len_app, Hbytes, Hlen. reflexivity.
        - intros E. destruct (Hnot_reset _ _ _ _ E). }
      exists []. rewrite app_nil_r. split; reflexivity.
  - destruct (start_as_specified _ _).
    + cbn [fst snd m_state m_model m_sent]. split; [reflexivity|]. split; [reflexivity|].
      split.
      { repeat split; fields_cbn; try assumption; try reflexivity;
          try (rewrite Hwin; reflexivity).
        - rewrite !len_app, Hbytes, Hlen, len_concat_frames, Hpre' by assumption.
          lia.
        - intros E. destruct (Hnot_reset _ _ _ _ E). }
      exists []. rewrite app_nil_r. split; reflexivity.
    + cbn [fst snd m_state m_model m_sent]. split; [reflexivity|]. split; [reflexivity|].
      split.
      { repeat split; fields_cbn; try assumption; try reflexivity;
          try (rewrite Hwin; reflexivity).
        intros E. destruct (Hnot_reset _ _ _ _ E). }
      exists []. rewrite app_nil_r. split; reflexivity.
Qed.

End ControlFacts.

Section Scenario.
Context `{Collaborators}.

(** [scores frame_bytes p]: a complete frame, above the noise gate, on which
    the model returns probability [p] whatever its state. *)
Definition scores (frame_bytes : bytes) (p : float) : Prop :=
  len frame_bytes = FRAME_BYTES /\
  rms_below_gate frame_bytes = false /\
  forall mdl, fst (model_call mdl frame_bytes) = Returned p.

Lemma scored_frame (cb : bool) (m : Machine) (mdl : Model) (frame_bytes : bytes)
    (p : float) :
  scores frame_bytes p ->
  m_model m = Some mdl ->
  _process_frame cb m frame_bytes =
    state_machine cb m (Some (snd (model_call mdl frame_bytes))) frame_bytes
      (is_speech_of p).
Proof.
  intros (Hlen & Hgate & Hscore) Hmodel. unfold _process_frame.
  rewrite Hlen, Z.eqb_refl, Hgate, Hmodel. cbn [negb call_model].
  specialize (Hscore mdl).
  destruct (model_call mdl frame_bytes) as [r mdl']. simpl in *. rewrite Hscore.
  reflexivity.
Qed.

(** Frames with known scores drive the machine as their decisions drive the
    control. *)
Lemma control_run_simulation (cb : bool) (frames : list bytes) :
  forall (decisions : list bool) (m : Machine) (c : Control),
  Forall2 (fun f b => exists p, scores f p /\ is_speech_of p = b) frames decisions ->
  abstracts (m_state m) c ->
  is_Some (m_model m) ->
  snd (feed_frames (_process_frame cb) m frames) = Normal /\
  abstracts (m_state (fst (feed_frames (_process_frame cb) m frames)))
    (fst (control_run cb c decisions)) /\
  exists new,
    m_sent (fst (feed_frames (_process_frame cb) m frames)) = m_sent m ++ new /\
    map len new = snd (control_run cb c decisions).
Proof.
  induction frames as [|f frames IH]; intros decisions m c Hall Habs [mdl Hmdl].
  - inversion Hall; subst. simpl. split; [reflexivity|]. split; [exact Habs|].
    exists []. rewrite app_nil_r. split; reflexivity.
  - inversion Hall as [|? b ? decisions' (p & Hscore & Hb) Hall']; subst.
    cbn [feed_frames control_run].
    rewrite (scored_frame cb m mdl f p Hscore Hmdl).
    destruct (control_simulation cb m (Some (snd (model_call mdl f))) f (is_speech_of p)
                c Habs (proj1 Hscore)) as (Hc & Hm & Habs' & new & Hsent & Hnew).
    destruct (state_machine cb m _ f (is_speech_of p)) as [m' done].
    cbn [fst snd] in *. subst done.
    destruct (control_step cb c (is_speech_of p)) as [c' sent]. cbn [fst snd] in *.
    destruct (IH decisions' m' c' Hall' Habs') as (Hc2 & Habs2 & new2 & Hsent2 & Hnew2).
    { rewrite Hm. eexists. reflexivity. }
    destruct (control_run cb c' decisions') as [c'' sent'']. cbn [fst snd] in *.
    split; [exact Hc2|]. split; [exact Habs2|].
    exists (new ++ new2). split.
    + rewrite Hsent2, Hsent, app_assoc. reflexivity.
    + rewrite map_app, Hnew, Hnew2. reflexivity.
Qed.

Lemma Forall2_firstn {A B : Type} (R : A -> B -> Prop) (k : nat) :
  forall (l1 : list A) (l2 : list B),
  Forall2 R l1 l2 -> Forall2 R (firstn k l1) (firstn k l2).
Proof.
  induction k as [|k IH]; intros l1 l2 Hall; [constructor|].
  destruct Hall; simpl; constructor; auto.
Qed.

Lemma Forall2_repeat {A B : Type} (R : A -> B -> Prop) (b : B) (l : list A) :
  Forall (fun a => R a b) l -> Forall2 R l (repeat b (length l)).
Proof. induction 1; simpl; constructor; auto. Qed.

End Scenario.

(** The decisions of the hysteresis scenario: 14 speech frames, then 32
    silent ones. *)
Definition scenario_decisions : list bool := repeat true 14 ++ repeat false 32.

(** On the control: Speaking from the first frame to the 45th with nothing
    sent, and back to the fresh control on the 46th, when 48128 bytes are
    sent. *)
Lemma scenario_control (cb : bool) :
  forallb (fun k =>
    let r := control_run cb control_reset (firstn k scenario_decisions) in
    c_in_speech (fst r) && (length (snd r) =? 0)%nat) (seq 1 45) = true /\
  control_run cb control_reset scenario_decisions =
    (control_reset, if cb then [48128] else []).
Proof. destruct cb; vm_compute; split; reflexivity. Qed.

(** ** Concrete collaborators for closed examples *)

(** A scorer that answers by the first byte of the frame (1 scores 0.95,
    2 scores 0.05, anything else raises) and counts its calls; a frame that
    starts with byte 0 is below the noise gate; the clock ticks once a
    reading.  The gate is a stand-in that goes by the first byte and not by
    the energy of the frame: what is proved for every [Collaborators] does
    not depend on it. *)
Definition bench : Collaborators := {|
  Model := nat;
  model_call := fun calls frame_bytes =>
    match frame_bytes with
    | Byte.x01 :: _ => (Returned 0.95%float, S calls)
    | Byte.x02 :: _ => (Returned 0.05%float, S calls)
    | _ => (Raised, S calls)
    end;
  rms_below_gate := fun frame_bytes =>
    match frame_bytes with
    | Byte.x00 :: _ => true
    | _ => false
    end;
  time_time := fun k => float_of_int (Z.of_nat k);
  utterance_name := fun _ => "utt"%string
|}.

(** A frame filled with one byte. *)
Definition tone (b : Byte.byte) : bytes := repeat b (Z.to_nat FRAME_BYTES).

(** [n] such frames. *)
Definition tones (b : Byte.byte) (n : nat) : list bytes := repeat (tone b) n.

(** A service of the bench whose model loaded. *)
Definition bench_service : @VadService bench := @VadService_init bench true (Some 0%nat).

(** A service of the bench without the model. *)
Definition bench_passthrough : @VadService bench := @VadService_init bench false None.

(** The fresh machine of the bench. *)
Definition bench_machine : @Machine bench :=
  @Build_Machine bench reset (Some 0%nat) 0 [].

(** * The claims *)

(** C1 as the code has it.  From a fresh state, feed 14 complete frames
    whose speech probability is 0.95, then 32 whose speech probability is
    0.05.  The machine is Idle before the first frame, which already makes
    it Speaking (a window of one speech decision has ratio 1), and it stays
    Speaking, with nothing sent, up to the 45th frame.  The ratio falls
    below 0.25 only on the 12th silent frame, and 21 such frames must follow
    one another; so the state is reset on the 32nd silent frame, the 46th of
    the run, and on no earlier one; the buffer then holds 47 frames, 48128
    bytes, above the minimum, and goes to the callback when there is one. *)
Theorem hysteresis_scenario `{Collaborators} (cb : bool) (speech silence : list bytes)
    (mdl : Model) (clock : nat) :
  length speech = 14%nat ->
  length silence = 32%nat ->
  Forall (fun f => scores f 0.95%float) speech ->
  Forall (fun f => scores f 0.05%float) silence ->
  let m0 := {| m_state := reset; m_model := Some mdl;
               m_clock := clock; m_sent := [] |} in
  let after := fun k =>
    feed_frames (_process_frame cb) m0 (firstn k (speech ++ silence)) in
  in_speech (m_state (fst (after 0%nat))) = false /\
  (forall k, (1 <= k <= 45)%nat ->
     snd (after k) = Normal /\
     in_speech (m_state (fst (after k))) = true /\
     m_sent (fst (after k)) = []) /\
  snd (after 46%nat) = Normal /\
  m_state (fst (after 46%nat)) = reset /\
  map len (m_sent (fst (after 46%nat))) = if cb then [48128] else [].
Proof.
  intros Hspeech Hsilence Hsp Hsi m0 after.
  assert (Hall : Forall2 (fun f b => exists p, scores f p /\ is_speech_of p = b)
                   (speech ++ silence) scenario_decisions).
  { unfold scenario_decisions. apply Forall2_app.
    - rewrite <- Hspeech. apply Forall2_repeat.
      eapply List.Forall_impl; [|exact Hsp]. intros f Hf.
      exists 0.95%float. split; [exact Hf | reflexivity].
    - rewrite <- Hsilence. apply Forall2_repeat.
      eapply List.Forall_impl; [|exact Hsi]. intros f Hf.
      exists 0.05%float. split; [exact Hf | reflexivity]. }
  assert (Habs0 : abstracts (m_state m0) control_reset).
  { repeat split; try reflexivity. constructor. }
  assert (Hrun : forall k,
    snd (after k) = Normal /\
    abstracts (m_state (fst (after k)))
      (fst (control_run cb control_reset (firstn k scenario_decisions))) /\
    exists new, m_sent (fst (after k)) = new /\
      map len new = snd (control_run cb control_reset (firstn k scenario_decisions))).
  { intros k. unfold after.
    destruct (control_run_simulation cb (firstn k (speech ++ silence))
                (firstn k scenario_decisions) m0 control_reset)
      as (Hc & Habs & new & Hsent & Hnew).
    - apply Forall2_firstn. exact Hall.
    - exact Habs0.
    - exists mdl. reflexivity.
    - split; [exact Hc|]. split; [exact Habs|]. exists new. split; assumption. }
  destruct (scenario_control cb) as [Hsteps Hend].
  split; [reflexivity|]. split; [|split; [|split]].
  - intros k Hk. destruct (Hrun k) as (Hc & Habs & new & Hsent & Hnew).
    rewrite forallb_forall in Hsteps.
    specialize (Hsteps k). cbv zeta in Hsteps.
    rewrite andb_true_iff in Hsteps. destruct Hsteps as [Hin Hnone].
    { apply in_seq. lia. }
    split; [exact Hc|]. split.
    + destruct Habs as (-> & _). exact Hin.
    + rewrite Hsent. apply Nat.eqb_eq in Hnone. rewrite <- Hnew, length_map in Hnone.
      destruct new; [reflexivity | discriminate].
  - apply (Hrun 46%nat).
  - destruct (Hrun 46%nat) as (_ & Habs & _).
    change (firstn 46 scenario_decisions) with scenario_decisions in Habs.
    rewrite Hend in Habs. destruct Habs as (_ & _ & _ & _ & _ & _ & Hreset).
    rewrite (Hreset eq_refl). unfold after.
    rewrite feed_frames_partial by reflexivity. reflexivity.
  - destruct (Hrun 46%nat) as (_ & _ & new & Hsent & Hnew).
    change (firstn 46 scenario_decisions) with scenario_decisions in Hnew.
    rewrite Hend in Hnew. rewrite Hsent. exact Hnew.
Qed.

Lemma tones_score (b : Byte.byte) (p : float) (n : nat) :
  @scores bench (tone b) p -> Forall (fun f => @scores bench f p) (tones b n).
Proof.
  intros Hb. apply List.Forall_forall. intros f Hf.
  apply repeat_spec in Hf. subst f. exact Hb.
Qed.

Lemma hysteresis_scenario_witness :
  m_state (fst (feed_frames (@_process_frame bench true) bench_machine
                  (firstn 46 (tones Byte.x01 14 ++ tones Byte.x02 32)))) = reset /\
  map len (m_sent (fst (feed_frames (@_process_frame bench true) bench_machine
                          (firstn 46 (tones Byte.x01 14 ++ tones Byte.x02 32)))))
    = [48128].
Proof.
  apply (@hysteresis_scenario bench true (tones Byte.x01 14) (tones Byte.x02 32)
           0%nat 0%nat).
  - reflexivity.
  - reflexivity.
  - apply tones_score. repeat split.
  - apply tones_score. repeat split.
Defined.

(** C1 as stated fails on the bench, with 14 frames that score 0.95 followed
    by 21 that score 0.05, one frame a call: the machine is Speaking after
    the first frame and after the 13th, so it is not Idle before the 14th;
    and after the 21st silent frame it is still Speaking, with 10 frames in
    the trailing ring and nothing sent. *)
Lemma hysteresis_counterexample :
  let after := fun k =>
    @process_audio_chunks bench bench_service 0 "c"
      (firstn k (tones Byte.x01 14 ++ tones Byte.x02 21)) true in
  in_speech (connection_state (cr_self (after 1%nat)) "c") = true /\
  in_speech (connection_state (cr_self (after 13%nat)) "c") = true /\
  in_speech (connection_state (cr_self (after 35%nat)) "c") = true /\
  len (trailing_silence_buffer (connection_state (cr_self (after 35%nat)) "c")) = 10 /\
  cr_sent (after 35%nat) = [].
Proof. vm_compute. repeat split. Qed.

(** C2 as the code has it.  When the model raises on a frame, the frame
    takes no decision and changes nothing but the model; the exception
    leaves [_process_frame] and [process_audio_chunk] and reaches the
    caller.  The frames of the chunk before the failing one have been
    processed; the failing frame and everything after it in the chunk are
    dropped, and the stored remainder is empty. *)
Theorem scorer_exception_propagates `{Collaborators} (self : VadService) (clock : nat)
    (connection_id : string) (audio_bytes : bytes) (cb : bool)
    (before after : list bytes) (frame_bytes tail : bytes) (m1 : Machine) :
  vad_model_loaded self = true ->
  split_chunk (partial_frame (connection_state self connection_id)) audio_bytes
    = (before ++ frame_bytes :: after, tail) ->
  feed_frames (_process_frame cb) (chunk_machine self clock connection_id) before
    = (m1, Normal) ->
  rms_below_gate frame_bytes = false ->
  fst (call_model (m_model m1) frame_bytes) = Raised ->
  _process_frame cb m1 frame_bytes =
    ({| m_state := m_state m1;
        m_model := snd (call_model (m_model m1) frame_bytes);
        m_clock := m_clock m1;
        m_sent := m_sent m1 |}, Exception)
  /\ process_audio_chunk self clock connection_id audio_bytes cb =
    {| cr_self :=
         {| model := snd (call_model (m_model m1) frame_bytes);
            vad_model_loaded := true;
            connections := <[connection_id := m_state m1]> (connections self) |};
       cr_clock := m_clock m1;
       cr_sent := m_sent m1;
       cr_done := Exception |}
  /\ partial_frame (m_state m1) = [].
Proof.
  intros Hloaded Hsplit Hbefore Hgate Hraise.
  assert (Hlen : len frame_bytes = FRAME_BYTES).
  { pose proof (split_chunk_is_framing
                  (partial_frame (connection_state self connection_id)) audio_bytes)
      as (_ & Hall & _).
    rewrite Hsplit in Hall. simpl in Hall.
    apply Forall_app in Hall as [_ Hall]. inversion Hall; assumption. }
  assert (Hframe : _process_frame cb m1 frame_bytes =
    ({| m_state := m_state m1;
        m_model := snd (call_model (m_model m1) frame_bytes);
        m_clock := m_clock m1;
        m_sent := m_sent m1 |}, Exception)).
  { unfold _process_frame. rewrite Hlen, Z.eqb_refl, Hgate. cbn [negb].
    destruct (call_model (m_model m1) frame_bytes) as [r model']. simpl in *.
    rewrite Hraise. reflexivity. }
  split; [exact Hframe|]. split.
  - rewrite process_audio_chunk_frames by exact Hloaded. cbv zeta.
    rewrite Hsplit. cbn [fst snd].
    rewrite feed_frames_app, Hbefore. simpl. rewrite Hframe. reflexivity.
  - pose proof (feed_frames_partial cb before
                  (chunk_machine self clock connection_id) eq_refl) as Hp.
    rewrite Hbefore in Hp. exact Hp.
Qed.

(** A chunk of the bench whose second frame makes the model raise. *)
Definition failing_chunk : bytes :=
  tone Byte.x01 ++ tone Byte.x03 ++ tone Byte.x01 ++ [Byte.x01; Byte.x01].

Lemma scorer_exception_propagates_witness :
  cr_done (@process_audio_chunk bench bench_service 0 "c" failing_chunk true)
    = Exception.
Proof.
  destruct (@scorer_exception_propagates bench bench_service 0 "c" failing_chunk true
              [tone Byte.x01] [tone Byte.x01] (tone Byte.x03) [Byte.x01; Byte.x01]
              (fst (feed_frames (@_process_frame bench true)
                      (@chunk_machine bench bench_service 0 "c") [tone Byte.x01])))
    as (_ & Hcall & _).
  - reflexivity.
  - vm_compute. reflexivity.
  - vm_compute. reflexivity.
  - reflexivity.
  - vm_compute. reflexivity.
  - rewrite Hcall. reflexivity.
Defined.

(** C2 as stated fails on the bench.  The first frame of the chunk is a
    speech frame, the model raises on the second, the third is a speech frame
    again.  The call ends in an exception; the decision window holds the
    decision of the first frame only, so the failing frame was given no
    [false]; and the speech buffer holds the onset frame twice and nothing
    else, so the third frame was never processed. *)
Lemma scorer_exception_counterexample :
  let r := @process_audio_chunk bench bench_service 0 "c" failing_chunk true in
  cr_done r = Exception /\
  vad_decision_buffer (connection_state (cr_self r) "c") = [true] /\
  speech_buffer (connection_state (cr_self r) "c") = tone Byte.x01 ++ tone Byte.x01 /\
  partial_frame (connection_state (cr_self r) "c") = [].
Proof. vm_compute. repeat split. Qed.






(** C4. For every frame processed while the machine is Idle (a complete
    frame whose scoring returned), the machine is Speaking afterwards if and
    only if the ratio of the decision window, the frame's decision
    included, is at least 0.90 and the count of speech decisions in the
    window is at least the ceiling of 0.60 times the window's fill.  The
    ratio is taken in exact arithmetic: with [true_count] speech decisions
    among [n], it is at least 0.90 when [9 * n <= 10 * true_count]. *)
Theorem idle_to_speaking_iff `{Collaborators} (cb : bool) (m m' : Machine)
    (frame_bytes : bytes) :
  in_speech (m_state m) = false ->
  len frame_bytes = FRAME_BYTES ->
  _process_frame cb m frame_bytes = (m', Normal) ->
  let window := vad_decision_buffer (m_state m') in
  let true_count := count_true window in
  let n := len window in
  in_speech (m_state m') = true <->
  9 * n <= 10 * true_count /\
  Qceiling ((60 # 100) * inject_Z n) <= true_count.
Proof.
  intros Hidle Hlen. unfold _process_frame.
  rewrite Hlen, Z.eqb_refl. cbn [negb].
  destruct (if rms_below_gate frame_bytes then _ else _) as [[p|] model'];
    [|intros [=]].
  unfold state_machine. cbv zeta. rewrite state_machine_start_condition.
  cbn [push_frame in_speech vad_decision_buffer]. rewrite Hidle. cbn [negb].
  destruct (window_bounds (vad_decision_buffer (m_state m)) (is_speech_of p))
    as [Hn Ht]. cbv zeta in Hn, Ht.
  destruct (start_as_specified _ _) eqn:Hstart; intros [= <-];
    cbn [m_state start_speech push_frame in_speech vad_decision_buffer];
    unfold start_as_specified in Hstart;
    rewrite (trigger_ratio_exact _ _ Hn Ht) in Hstart.
  - apply andb_true_iff in Hstart as [Hratio Hcount].
    apply Z.leb_le in Hratio. apply Z.leb_le in Hcount.
    split; [intros _; split; assumption | reflexivity].
  - split; [intros Hsp; congruence|]. intros [Hratio Hcount].
    apply Z.leb_le in Hratio. apply Z.leb_le in Hcount.
    rewrite Hratio, Hcount in Hstart. discriminate.
Qed.

Lemma idle_to_speaking_iff_witness :
  in_speech (m_state (fst (@_process_frame bench true bench_machine (tone Byte.x01))))
    = true <->
  9 * 1 <= 10 * 1 /\
  Qceiling ((60 # 100) * inject_Z 1) <= 1.
Proof.
  apply (@idle_to_speaking_iff bench true bench_machine
           (fst (@_process_frame bench true bench_machine (tone Byte.x01)))
           (tone Byte.x01)).
  - reflexivity.
  - vm_compute. reflexivity.
  - vm_compute. reflexivity.
Defined.


(** The scenario of the hysteresis test on the bench: 14 speech frames and
    32 silent ones, in one chunk. *)
Definition long_utterance : bytes := concat (tones Byte.x01 14 ++ tones Byte.x02 32).


(** C6. Silence never emits: in segmentation mode, take a connection in its
    fresh state and a stream of chunks whose complete frames (the frames of
    the splitter over the whole stream) are all below the noise gate.
    After any number of the chunks every call has returned, the callback has
    not been called, the state is Idle, and the model has not been called. *)
Theorem silence_never_emits `{Collaborators} (self : VadService) (clock : nat)
    (connection_id : string) (chunks : list bytes) (cb : bool) (k : nat) :
  vad_model_loaded self = true ->
  connection_state self connection_id = reset ->
  Forall (fun f => rms_below_gate f = true) (fst (split_chunk [] (concat chunks))) ->
  let r := process_audio_chunks self clock connection_id (firstn k chunks) cb in
  cr_done r = Normal /\ cr_sent r = [] /\
  in_speech (connection_state (cr_self r) connection_id) = false /\
  model (cr_self r) = model self.
Proof.
  intros Hloaded Hfresh Hgate.
  rewrite <- (firstn_skipn k chunks), concat_app, split_chunk_app in Hgate.
  cbn [fst] in Hgate. apply Forall_app in Hgate as [Hgate _].
  destruct (quiet_stream cb connection_id (firstn k chunks) self clock Hloaded)
    as (Hc & Hs & Hq & Hm & _).
  - rewrite Hfresh. split; [reflexivity | constructor].
  - rewrite Hfresh. exact Hgate.
  - cbv zeta. repeat split; try assumption. apply Hq.
Qed.

(** Three chunks of the bench that cut five silent frames at odd places. *)
Definition silent_stream : list bytes :=
  [tone Byte.x00 ++ [Byte.x00];
   tone Byte.x00 ++ tone Byte.x00;
   tone Byte.x00 ++ tone Byte.x00 ++ [Byte.x01]].

Lemma silence_never_emits_witness :
  cr_sent (@process_audio_chunks bench bench_service 0 "c" silent_stream true) = [].
Proof.
  apply (@silence_never_emits bench bench_service 0 "c" silent_stream true 3).
  - reflexivity.
  - reflexivity.
  - vm_compute. repeat constructor.
Defined.

(** C7. Passthrough equivalence: a service built without the scoring
    capability (torch missing, or the model failed to load) forwards every
    chunk to the callback unchanged, once, at every point of its life; the
    call returns, segments nothing, and neither the service nor the clock
    changes; no connection state ever exists. *)
Theorem passthrough_forwards_chunk `{Collaborators} (TORCH_AVAILABLE : bool)
    (hub_load : option Model) (self : VadService) (clock : nat)
    (connection_id : string) (audio_bytes : bytes) (on_utterance_detected : bool) :
  TORCH_AVAILABLE = false \/ hub_load = None ->
  reachable_from (VadService_init TORCH_AVAILABLE hub_load) self clock ->
  process_audio_chunk self clock connection_id audio_bytes on_utterance_detected =
    {| cr_self := self;
       cr_clock := clock;
       cr_sent := if on_utterance_detected then [audio_bytes] else [];
       cr_done := Normal |}
  /\ connections self = ∅.
Proof.
  intros Hmissing Hreach.
  assert (Hmode : vad_model_loaded (VadService_init TORCH_AVAILABLE hub_load) = false).
  { destruct Hmissing as [-> | ->]; [reflexivity|].
    unfold VadService_init. destruct TORCH_AVAILABLE; reflexivity. }
  assert (Hempty : connections (VadService_init TORCH_AVAILABLE hub_load) = ∅).
  { unfold VadService_init. destruct TORCH_AVAILABLE; [destruct hub_load|]; reflexivity. }
  rewrite (reachable_from_passthrough _ _ _ Hmode Hempty Hreach).
  split; [|exact Hempty].
  unfold process_audio_chunk. rewrite Hmode. reflexivity.
Qed.

Lemma passthrough_forwards_chunk_witness :
  @process_audio_chunk bench bench_passthrough 0 "c" [Byte.x01; Byte.x02; Byte.x03] true =
    {| cr_self := bench_passthrough;
       cr_clock := 0%nat;
       cr_sent := [[Byte.x01; Byte.x02; Byte.x03]];
       cr_done := Normal |}
  /\ connections bench_passthrough = ∅.
Proof.
  apply (@passthrough_forwards_chunk bench false None bench_passthrough 0 "c"
           [Byte.x01; Byte.x02; Byte.x03] true).
  - left. reflexivity.
  - apply reachable_start.
Defined.

(** C8 as the code has it.  On a service reachable from the constructor a
    zero-length chunk returns, reads no clock, leaves the model and the mode
    alone, and leaves the state of every connection, as [get_state] shows it,
    unchanged.  In segmentation mode it yields no frame and the callback is
    not called.  In passthrough mode it is forwarded like any chunk: the
    callback, when there is one, is called once with the empty bytes. *)
Theorem empty_chunk_effect `{Collaborators} (self : VadService) (clock : nat)
    (connection_id : string) (cb : bool) :
  reachable self clock ->
  let r := process_audio_chunk self clock connection_id [] cb in
  cr_done r = Normal /\
  cr_clock r = clock /\
  model (cr_self r) = model self /\
  vad_model_loaded (cr_self r) = vad_model_loaded self /\
  (forall other, connection_state (cr_self r) other = connection_state self other) /\
  (if vad_model_loaded self
   then fst (split_chunk (partial_frame (connection_state self connection_id)) []) = []
        /\ cr_sent r = []
   else cr_sent r = if cb then [[]] else []).
Proof.
  intros Hreach. cbv zeta.
  destruct (vad_model_loaded self) eqn:Hloaded.
  - pose proof (connection_state_ok self connection_id (reachable_ok _ _ Hreach))
      as [_ Hshort].
    rewrite process_audio_chunk_frames by exact Hloaded. cbv zeta.
    rewrite (split_chunk_short _ Hshort).
    cbn [fst snd feed_frames chunk_machine cr_done cr_clock cr_self cr_sent
         model vad_model_loaded m_state m_model m_clock m_sent].
    repeat split.
    intros other. unfold connection_state at 1. cbn [connections].
    rewrite set_partial_frame_twice, set_partial_frame_same by reflexivity.
    destruct (decide (connection_id = other)) as [->|Hne].
    + rewrite lookup_insert_eq. reflexivity.
    + rewrite lookup_insert_ne by exact Hne. reflexivity.
  - unfold process_audio_chunk. rewrite Hloaded. simpl. repeat split. exact Hloaded.
Qed.

(** The bench service with two bytes of remainder stored for ["c"]. *)
Definition bench_with_remainder : @VadService bench :=
  cr_self (@process_audio_chunk bench bench_service 0 "c" [Byte.x01; Byte.x02] true).

Lemma empty_chunk_effect_witness :
  partial_frame
    (connection_state
       (cr_self (@process_audio_chunk bench bench_with_remainder 0 "c" [] true)) "c")
  = [Byte.x01; Byte.x02].
Proof.
  destruct (@empty_chunk_effect bench bench_with_remainder 0 "c" true)
    as (_ & _ & _ & _ & Hsame & _).
  - exists true, (Some 0%nat).
    apply (@reachable_process bench _ bench_service 0 "c" [Byte.x01; Byte.x02] true).
    apply reachable_start.
  - rewrite Hsame. vm_compute. reflexivity.
Defined.

(** C8 as stated fails in passthrough mode: the empty chunk reaches the
    callback. *)
Lemma empty_chunk_counterexample :
  cr_sent (@process_audio_chunk bench bench_passthrough 0 "c" [] true) = [[]].
Proof. vm_compute. reflexivity. Qed.

(** C9. State invariant: in every service reachable from the constructor
    through [process_audio_chunk] and [cleanup_connection] calls, a stored
    connection state that is Idle has an empty speech buffer. *)
Theorem idle_speech_buffer_empty `{Collaborators} (self : VadService) (clock : nat)
    (connection_id : string) (state : VadState) :
  reachable self clock ->
  connections self !! connection_id = Some state ->
  in_speech state = false ->
  speech_buffer state = [].
Proof.
  intros Hreach Hlook Hidle.
  destruct (reachable_ok self clock Hreach connection_id state Hlook) as [Hinv _].
  exact (Hinv Hidle).
Qed.

(** A short utterance on the bench: one speech frame, then 24 silent ones;
    the machine has gone Speaking and come back to Idle. *)
Definition short_utterance : bytes := concat (tones Byte.x01 1 ++ tones Byte.x02 24).

Lemma idle_speech_buffer_empty_witness :
  speech_buffer
    (connection_state
       (cr_self (@process_audio_chunk bench bench_service 0 "c" short_utterance true))
       "c") = [].
Proof.
  apply (@idle_speech_buffer_empty bench
           (cr_self (@process_audio_chunk bench bench_service 0 "c" short_utterance true))
           (cr_clock (@process_audio_chunk bench bench_service 0 "c" short_utterance true))
           "c").
  - exists true, (Some 0%nat). apply reachable_process. apply reachable_start.
  - vm_compute. reflexivity.
  - vm_compute. reflexivity.
Defined.

(** C10. On every Idle-to-Speaking transition the triggering frame enters
    the speech buffer twice: the pre-speech ring already ends with it when
    the ring is copied, and it is appended once more.  The buffer keeps
    that prefix for as long as the machine stays Speaking, so the utterance
    given to the callback at the end of this accumulation contains the onset
    frame twice in a row. *)
Theorem onset_frame_duplicated `{Collaborators} (cb : bool) (m m1 : Machine)
    (frame_bytes : bytes) (c : completion) :
  in_speech (m_state m) = false ->
  _process_frame cb m frame_bytes = (m1, c) ->
  in_speech (m_state m1) = true ->
  exists older,
    pre_speech_buffer (m_state m1) = older ++ [frame_bytes] /\
    speech_buffer (m_state m1) =
      speech_buffer (m_state m) ++ concat older ++ frame_bytes ++ frame_bytes /\
    forall (frames : list bytes) (last_frame : bytes) (m3 : Machine) (c3 : completion)
           (utterance : bytes),
      stays_speaking cb m1 frames ->
      _process_frame cb (fst (feed_frames (_process_frame cb) m1 frames)) last_frame
        = (m3, c3) ->
      m_sent m3 = m_sent (fst (feed_frames (_process_frame cb) m1 frames)) ++ [utterance] ->
      exists later,
        utterance =
          (speech_buffer (m_state m) ++ concat older ++ frame_bytes ++ frame_bytes)
          ++ later.
Proof.
  intros Hidle E Hsp.
  destruct (onset_frame cb m m1 frame_bytes c Hidle E Hsp) as (older & Hring & Hbuf).
  exists older. split; [exact Hring|]. split; [exact Hbuf|].
  intros frames g m3 c3 u Hrun E3 Hsent.
  destruct (stays_speaking_extends cb frames m1 Hsp Hrun) as (Hsp2 & later & Hlater).
  set (m2 := fst (feed_frames (_process_frame cb) m1 frames)) in *.
  assert (Hgrow : forall l : list bytes, l = l ++ [u] -> False).
  { intros l Hl. apply (f_equal (@length _)) in Hl. rewrite length_app in Hl.
    simpl in Hl. lia. }
  destruct (speaking_frame cb m2 m3 g c3 Hsp2 E3)
    as [[_ Hs] | [(_ & _ & _ & Hs) | (_ & _ & Hs)]].
  - exfalso. rewrite Hs in Hsent. exact (Hgrow _ Hsent).
  - exfalso. rewrite Hs in Hsent. exact (Hgrow _ Hsent).
  - rewrite Hsent in Hs.
    destruct (_ <=? _); [destruct cb|]; try (exfalso; exact (Hgrow _ (eq_sym Hs))).
    apply app_inj_tail in Hs as [_ ->].
    exists (later ++ g). rewrite Hlater, Hbuf, <- !app_assoc. reflexivity.
Qed.

Lemma onset_frame_duplicated_witness :
  speech_buffer
    (m_state (fst (@_process_frame bench true bench_machine (tone Byte.x01))))
  = tone Byte.x01 ++ tone Byte.x01.
Proof.
  destruct (@onset_frame_duplicated bench true bench_machine
              (fst (@_process_frame bench true bench_machine (tone Byte.x01)))
              (tone Byte.x01)
              (snd (@_process_frame bench true bench_machine (tone Byte.x01))))
    as (older & Hring & Hbuf & _).
  - reflexivity.
  - apply surjective_pairing.
  - vm_compute. reflexivity.
  - rewrite Hbuf.
    assert (older = []) as ->.
    { assert (Hlen : length (older ++ [tone Byte.x01]) = 1%nat)
        by (rewrite <- Hring; vm_compute; reflexivity).
      rewrite length_app in Hlen. simpl in Hlen.
      destruct older; [reflexivity | simpl in Hlen; lia]. }
    reflexivity.
Defined.

(** * Further properties of the service *)

(** ** The connection registry (lines 101-111) *)

(** X1. [cleanup_connection] is idempotent, and on an id that has no state it
    changes nothing. *)
Theorem cleanup_connection_idempotent `{Collaborators} (self : VadService)
    (connection_id : string) :
  cleanup_connection (cleanup_connection self connection_id) connection_id
    = cleanup_connection self connection_id /\
  (connections self !! connection_id = None ->
   cleanup_connection self connection_id = self).
Proof.
  split.
  - unfold cleanup_connection at 2 3.
    destruct (connections self !! connection_id) eqn:E.
    + unfold cleanup_connection. cbn [connections].
      rewrite lookup_delete_eq. reflexivity.
    + unfold cleanup_connection. rewrite E. reflexivity.
  - intros E. unfold cleanup_connection. rewrite E. reflexivity.
Qed.

(** X2. [cleanup_connection] removes the state of its connection and of no
    other: whatever the connection had accumulated is gone, the next
    [get_state] for it starts from a fresh state, and the model and the mode
    are untouched. *)
Theorem cleanup_connection_discards `{Collaborators} (self : VadService)
    (connection_id : string) :
  connections (cleanup_connection self connection_id) !! connection_id = None /\
  snd (get_state (cleanup_connection self connection_id) connection_id) = reset /\
  (forall other, other <> connection_id ->
     connections (cleanup_connection self connection_id) !! other
       = connections self !! other) /\
  model (cleanup_connection self connection_id) = model self /\
  vad_model_loaded (cleanup_connection self connection_id) = vad_model_loaded self.
Proof.
  assert (Hgone : connections (cleanup_connection self connection_id) !! connection_id
                  = None).
  { unfold cleanup_connection.
    destruct (connections self !! connection_id) eqn:E; [|exact E].
    cbn [connections]. apply lookup_delete_eq. }
  split; [exact Hgone|]. split; [|split; [|split]].
  - unfold get_state. rewrite Hgone. reflexivity.
  - intros other Hne. unfold cleanup_connection.
    destruct (connections self !! connection_id); [|reflexivity].
    cbn [connections]. apply lookup_delete_ne. congruence.
  - unfold cleanup_connection. destruct (connections self !! connection_id); reflexivity.
  - unfold cleanup_connection. destruct (connections self !! connection_id); reflexivity.
Qed.

(** X3. [get_state] creates the state of a connection once: it returns the
    stored state when there is one and a fresh one otherwise, stores what it
    returns, leaves every other connection alone, and asked again returns the
    same state without changing the service. *)
Theorem get_state_creates_once `{Collaborators} (self : VadService)
    (connection_id : string) :
  let self' := fst (get_state self connection_id) in
  let state := snd (get_state self connection_id) in
  connections self' !! connection_id = Some state /\
  state = default reset (connections self !! connection_id) /\
  get_state self' connection_id = (self', state) /\
  (forall other, other <> connection_id ->
     connections self' !! other = connections self !! other).
Proof.
  cbv zeta.
  destruct (connections self !! connection_id) as [state|] eqn:E.
  - assert (Hget : get_state self connection_id = (self, state))
      by (unfold get_state; rewrite E; reflexivity).
    rewrite Hget. cbn [fst snd]. rewrite Hget. repeat split. exact E.
  - assert (Hget : get_state self connection_id =
      ({| model := model self; vad_model_loaded := vad_model_loaded self;
          connections := <[connection_id := reset]> (connections self) |}, reset))
      by (unfold get_state; rewrite E; reflexivity).
    rewrite Hget. cbn [fst snd connections]. repeat split.
    + apply lookup_insert_eq.
    + unfold get_state. cbn [connections]. rewrite lookup_insert_eq. reflexivity.
    + intros other Hne. apply lookup_insert_ne. congruence.
Qed.

(** ** One call and the rest of the service *)

Section CallFacts.
Context `{Collaborators}.

Lemma state_machine_model (cb : bool) (m : Machine) (model' : option Model)
    (frame_bytes : bytes) (is_speech : bool) :
  m_model (fst (state_machine cb m model' frame_bytes is_speech)) = model'.
Proof.
  unfold state_machine. cbv zeta. rewrite state_machine_start_condition.
  frame_cases; reflexivity.
Qed.

(** A frame never loses the model. *)
Lemma _process_frame_keeps_model (cb : bool) (m : Machine) (frame_bytes : bytes) :
  is_Some (m_model m) -> is_Some (m_model (fst (_process_frame cb m frame_bytes))).
Proof.
  intros [mdl Hmdl]. unfold _process_frame.
  destruct (negb (len frame_bytes =? FRAME_BYTES)); [eexists; exact Hmdl|].
  assert (Hsome : is_Some (snd (if rms_below_gate frame_bytes
                                then (Returned 0%float, m_model m)
                                else call_model (m_model m) frame_bytes))).
  { destruct (rms_below_gate frame_bytes); cbn [snd]; [eexists; exact Hmdl|].
    rewrite Hmdl. cbn [call_model]. destruct (model_call mdl frame_bytes).
    eexists. reflexivity. }
  destruct (if rms_below_gate frame_bytes then _ else _) as [[p|] model'];
    cbn [snd] in Hsome.
  - rewrite state_machine_model. exact Hsome.
  - exact Hsome.
Qed.

End CallFacts.

(** X4. Connections are isolated: a call of [process_audio_chunk] for one
    connection, in either mode and whether it returns or raises, leaves the
    stored state of every other connection as it was, and never changes the
    mode. *)
Theorem process_audio_chunk_isolated `{Collaborators} (self : VadService)
    (clock : nat) (connection_id other : string) (audio_bytes : bytes) (cb : bool) :
  other <> connection_id ->
  connections (cr_self (process_audio_chunk self clock connection_id audio_bytes cb))
    !! other = connections self !! other /\
  vad_model_loaded (cr_self (process_audio_chunk self clock connection_id audio_bytes cb))
    = vad_model_loaded self.
Proof.
  intros Hne. destruct (vad_model_loaded self) eqn:Hloaded.
  - rewrite process_audio_chunk_frames by exact Hloaded. cbv zeta.
    cbn [cr_self connections vad_model_loaded]. split; [|reflexivity].
    apply lookup_insert_ne. congruence.
  - unfold process_audio_chunk. rewrite Hloaded. cbn. split; [reflexivity | exact Hloaded].
Qed.

(** The bench service after a speech frame for ["a"]: ["a"] is Speaking. *)
Definition bench_speaking : @VadService bench :=
  cr_self (@process_audio_chunk bench bench_service 0 "a" (tone Byte.x01) true).

Lemma process_audio_chunk_isolated_witness :
  in_speech
    (connection_state
       (cr_self (@process_audio_chunk bench bench_speaking 2 "b" long_utterance true))
       "a") = true.
Proof.
  unfold connection_state.
  destruct (@process_audio_chunk_isolated bench bench_speaking 2 "b" "a"
              long_utterance true) as [-> _].
  - discriminate.
  - vm_compute. reflexivity.
Defined.

(** X5. The mode and the model go together: in every service reachable from
    the constructor, [vad_model_loaded] holds exactly when [self.model] is a
    model; so the segmentation path never calls [None]. *)
Theorem loaded_iff_model `{Collaborators} (self : VadService) (clock : nat) :
  reachable self clock ->
  (vad_model_loaded self = true <-> is_Some (model self)).
Proof.
  intros (torch & hub & Hreach).
  induction Hreach as [clock|self clock cid audio cb Hreach IH|self clock cid Hreach IH].
  - unfold VadService_init. destruct torch; [destruct hub|]; cbn; split;
      intros Hx; try reflexivity; try discriminate; try (eexists; reflexivity);
      destruct Hx; discriminate.
  - destruct (vad_model_loaded self) eqn:Hloaded.
    + rewrite process_audio_chunk_frames by exact Hloaded. cbv zeta.
      cbn [cr_self model vad_model_loaded]. split; [intros _|reflexivity].
      apply (feed_frames_invariant (_process_frame cb) (fun m => is_Some (m_model m))).
      * intros s f. apply _process_frame_keeps_model.
      * apply IH. reflexivity.
    + unfold process_audio_chunk. rewrite Hloaded. cbn [negb cr_self].
      rewrite Hloaded. exact IH.
  - unfold cleanup_connection. destruct (connections self !! cid); exact IH.
Qed.

Lemma loaded_iff_model_witness :
  is_Some
    (model (cr_self (@process_audio_chunk bench bench_service 0 "c" long_utterance true))).
Proof.
  apply (@loaded_iff_model bench _
           (cr_clock (@process_audio_chunk bench bench_service 0 "c" long_utterance true))).
  - exists true, (Some 0%nat). apply reachable_process. apply reachable_start.
  - vm_compute. reflexivity.
Defined.

(** X7. A chunk too short to complete a frame is only buffered: in
    segmentation mode, when the stored remainder and the chunk together have
    fewer than [FRAME_BYTES] bytes, the call returns, processes no frame
    (the model and the clock are untouched, the callback is not called) and
    stores the remainder followed by the chunk; nothing else of the state
    changes. *)
Theorem short_chunk_is_buffered `{Collaborators} (self : VadService) (clock : nat)
    (connection_id : string) (audio_bytes : bytes) (cb : bool) :
  vad_model_loaded self = true ->
  len (partial_frame (connection_state self connection_id)) + len audio_bytes
    < FRAME_BYTES ->
  process_audio_chunk self clock connection_id audio_bytes cb =
    {| cr_self :=
         {| model := model self;
            vad_model_loaded := true;
            connections :=
              <[connection_id :=
                  set_partial_frame (connection_state self connection_id)
                    (partial_frame (connection_state self connection_id)
                       ++ audio_bytes)]> (connections self) |};
       cr_clock := clock;
       cr_sent := [];
       cr_done := Normal |}.
Proof.
  intros Hloaded Hshort.
  rewrite process_audio_chunk_frames by exact Hloaded. cbv zeta.
  rewrite (split_chunk_framing _ _ []
             (partial_frame (connection_state self connection_id) ++ audio_bytes)).
  - reflexivity.
  - repeat split; [constructor | rewrite len_app; exact Hshort].
Qed.

Lemma short_chunk_is_buffered_witness :
  partial_frame
    (connection_state
       (cr_self (@process_audio_chunk bench bench_with_remainder 0 "c"
                   [Byte.x03; Byte.x04] true)) "c")
  = [Byte.x01; Byte.x02; Byte.x03; Byte.x04].
Proof.
  rewrite (@short_chunk_is_buffered bench bench_with_remainder 0 "c"
             [Byte.x03; Byte.x04] true).
  - vm_compute. reflexivity.
  - reflexivity.
  - vm_compute. reflexivity.
Defined.

Lemma connection_state_insert `{Collaborators} (mdl : option Model) (loaded : bool)
    (stored : gmap string VadState) (connection_id : string) (state : VadState) :
  connection_state
    {| model := mdl; vad_model_loaded := loaded;
       connections := <[connection_id := state]> stored |} connection_id = state.
Proof. unfold connection_state. cbn [connections]. rewrite lookup_insert_eq. reflexivity. Qed.

Lemma framing_counts (l : bytes) (frames : list bytes) (tail : bytes) :
  framing l frames tail ->
  len frames = len l / FRAME_BYTES /\ len tail = len l mod FRAME_BYTES.
Proof.
  intros (E & Hall & Hshort). pose proof FRAME_BYTES_value as HFB.
  pose proof (len_nonneg tail). pose proof (len_nonneg frames).
  assert (Hlen : len l = FRAME_BYTES * len frames + len tail).
  { rewrite E, len_app, len_concat_frames by exact Hall. lia. }
  split.
  - apply (Z.div_unique_pos _ _ _ (len tail)); [lia | exact Hlen].
  - apply (Z.mod_unique_pos _ _ (len frames)); [lia | exact Hlen].
Qed.

(** X8. Frame and remainder counts: in segmentation mode a call cuts the
    stored remainder followed by the chunk into the whole frames they
    contain, [(old remainder + chunk) / FRAME_BYTES] of them, and hands
    these to [_process_frame] in order, up to the first one that raises; a
    call that returns stores what is left over, [(old remainder + chunk) mod
    FRAME_BYTES] bytes, and a call that raises stores none. *)
Theorem remainder_arithmetic `{Collaborators} (self : VadService) (clock : nat)
    (connection_id : string) (audio_bytes : bytes) (cb : bool) :
  vad_model_loaded self = true ->
  let stored := partial_frame (connection_state self connection_id) in
  let call := process_audio_chunk self clock connection_id audio_bytes cb in
  exists (frames : list bytes) (remainder : bytes),
    concat frames ++ remainder = stored ++ audio_bytes /\
    Forall (fun frame_bytes => len frame_bytes = FRAME_BYTES) frames /\
    len frames = (len stored + len audio_bytes) / FRAME_BYTES /\
    len remainder = (len stored + len audio_bytes) mod FRAME_BYTES /\
    let r := feed_frames (_process_frame cb)
               (chunk_machine self clock connection_id) frames in
    cr_done call = snd r /\
    cr_clock call = m_clock (fst r) /\
    cr_sent call = m_sent (fst r) /\
    model (cr_self call) = m_model (fst r) /\
    connection_state (cr_self call) connection_id =
      match snd r with
      | Normal => set_partial_frame (m_state (fst r)) remainder
      | _ => set_partial_frame (m_state (fst r)) []
      end.
Proof.
  intros Hloaded stored call. unfold call.
  rewrite process_audio_chunk_frames by exact Hloaded. cbv zeta.
  cbn [cr_done cr_self cr_clock cr_sent model]. fold stored.
  pose proof (split_chunk_is_framing stored audio_bytes) as Hfr.
  destruct (framing_counts _ _ _ Hfr) as [Hn Ht]. rewrite len_app in Hn, Ht.
  destruct Hfr as (Hcat & Hall & _).
  exists (fst (split_chunk stored audio_bytes)), (snd (split_chunk stored audio_bytes)).
  split; [symmetry; exact Hcat|]. split; [exact Hall|].
  split; [exact Hn|]. split; [exact Ht|].
  repeat split. rewrite connection_state_insert.
  pose proof (feed_frames_partial cb (fst (split_chunk stored audio_bytes))
                (chunk_machine self clock connection_id) eq_refl) as Hempty.
  destruct (snd (feed_frames _ _ _)); [reflexivity | |];
    symmetry; apply set_partial_frame_same; exact Hempty.
Qed.

Lemma remainder_arithmetic_witness :
  exists (frames : list bytes) (remainder : bytes),
    len frames = 1 /\ len remainder = 3 /\
    concat frames ++ remainder
      = [Byte.x01; Byte.x02] ++ (tone Byte.x00 ++ [Byte.x00]).
Proof.
  destruct (@remainder_arithmetic bench bench_with_remainder 0 "c"
              (tone Byte.x00 ++ [Byte.x00]) true eq_refl)
    as (frames & remainder & Hcat & _ & Hn & Hrem & _).
  exists frames, remainder.
  split; [rewrite Hn; vm_compute; reflexivity|].
  split; [rewrite Hrem; vm_compute; reflexivity|].
  exact Hcat.
Defined.

(** ** The rings and the speech buffer hold whole frames *)

Section RingFacts.
Context `{Collaborators}.

(** The rings within their capacities (the trailing ring below it: a full
    one ends the utterance), complete frames in the two rings of frames,
    and a whole number of frames in the speech buffer. *)
Definition rings_ok (state : VadState) : Prop :=
  len (pre_speech_buffer state) <= PRE_SPEECH_FRAMES /\
  len (vad_decision_buffer state) <= SPEECH_BUFFER_FRAMES /\
  len (trailing_silence_buffer state) < TRAILING_SILENCE_FRAMES /\
  Forall (fun f => len f = FRAME_BYTES) (pre_speech_buffer state) /\
  Forall (fun f => len f = FRAME_BYTES) (trailing_silence_buffer state) /\
  (FRAME_BYTES | len (speech_buffer state)).

Lemma reset_rings_ok : rings_ok reset.
Proof.
  unfold rings_ok. cbn. repeat split; try constructor; try (vm_compute; discriminate).
  apply Z.divide_0_r.
Qed.

Lemma set_partial_frame_rings_ok (state : VadState) (p : bytes) :
  rings_ok state -> rings_ok (set_partial_frame state p).
Proof. intros Hok. exact Hok. Qed.

Lemma state_machine_rings (cb : bool) (m : Machine) (model' : option Model)
    (frame_bytes : bytes) (is_speech : bool) :
  rings_ok (m_state m) ->
  len frame_bytes = FRAME_BYTES ->
  rings_ok (m_state (fst (state_machine cb m model' frame_bytes is_speech))) /\
  exists new,
    m_sent (fst (state_machine cb m model' frame_bytes is_speech)) = m_sent m ++ new /\
    Forall (fun u => (FRAME_BYTES | len u)) new.
Proof.
  intros (Hpre & Hwin & Htrail & Hpf & Htf & Hsb) Hlen.
  pose proof PRE_SPEECH_FRAMES_value as HPF.
  pose proof SPEECH_BUFFER_FRAMES_value as HSF.
  pose proof TRAILING_SILENCE_FRAMES_value as HTF.
  pose proof (len_nonneg (pre_speech_buffer (m_state m))).
  pose proof (len_nonneg (vad_decision_buffer (m_state m))).
  pose proof (len_nonneg (trailing_silence_buffer (m_state m))).
  assert (Hpre' : len (deque_append PRE_SPEECH_FRAMES (pre_speech_buffer (m_state m))
                         frame_bytes) <= PRE_SPEECH_FRAMES)
    by (rewrite deque_append_length; lia).
  assert (Hwin' : len (deque_append SPEECH_BUFFER_FRAMES (vad_decision_buffer (m_state m))
                         is_speech) <= SPEECH_BUFFER_FRAMES)
    by (rewrite deque_append_length; lia).
  assert (Hpf' : Forall (fun f => len f = FRAME_BYTES)
            (deque_append PRE_SPEECH_FRAMES (pre_speech_buffer (m_state m)) frame_bytes))
    by (apply deque_append_Forall; assumption).
  assert (Htf' : Forall (fun f => len f = FRAME_BYTES)
            (deque_append TRAILING_SILENCE_FRAMES (trailing_silence_buffer (m_state m))
               frame_bytes))
    by (apply deque_append_Forall; assumption).
  assert (Hframe : (FRAME_BYTES | len frame_bytes))
    by (rewrite Hlen; apply Z.divide_refl).
  assert (Hgrow : (FRAME_BYTES | len (speech_buffer (m_state m) ++ frame_bytes)))
    by (rewrite len_app; apply Z.divide_add_r; assumption).
  unfold state_machine. cbv zeta. rewrite state_machine_start_condition.
  cbn [push_frame in_speech vad_decision_buffer trailing_silence_buffer
       speech_buffer pre_speech_buffer].
  destruct (negb (in_speech (m_state m))).
  - destruct (start_as_specified _ _); cbn [fst m_state m_sent]; split;
      try (exists []; rewrite app_nil_r; split; [reflexivity | constructor]).
    + unfold rings_ok. fields_cbn. repeat split; try assumption; try constructor.
      rewrite !len_app, len_concat_frames by assumption.
      apply Z.divide_add_r; [exact Hsb|].
      apply Z.divide_add_r; [apply Z.divide_factor_r | exact Hframe].
    + unfold rings_ok. fields_cbn. repeat split; assumption.
  - destruct (_ <? _)%float.
    + destruct (Z.eqb_spec
                  (len (deque_append TRAILING_SILENCE_FRAMES
                          (trailing_silence_buffer (m_state m)) frame_bytes))
                  TRAILING_SILENCE_FRAMES) as [Hfull|Hnot];
        cbn [fst m_state m_sent]; split.
      * exact reset_rings_ok.
      * fields_cbn. destruct (_ <=? _); [destruct cb|];
          try (exists []; rewrite app_nil_r; split; [reflexivity | constructor]).
        eexists. split; [reflexivity|]. constructor; [exact Hgrow | constructor].
      * unfold rings_ok. fields_cbn. repeat split; try assumption.
        rewrite deque_append_length in * by lia. lia.
      * exists []. rewrite app_nil_r. split; [reflexivity | constructor].
    + cbn [fst m_state m_sent]. split.
      * unfold rings_ok. fields_cbn. repeat split; try assumption; constructor.
      * exists []. rewrite app_nil_r. split; [reflexivity | constructor].
Qed.

Lemma _process_frame_rings (cb : bool) (m : Machine) (frame_bytes : bytes) :
  rings_ok (m_state m) ->
  rings_ok (m_state (fst (_process_frame cb m frame_bytes))) /\
  exists new,
    m_sent (fst (_process_frame cb m frame_bytes)) = m_sent m ++ new /\
    Forall (fun u => (FRAME_BYTES | len u)) new.
Proof.
  intros Hok. unfold _process_frame.
  destruct (Z.eqb_spec (len frame_bytes) FRAME_BYTES) as [Hlen|Hlen]; cbn [negb].
  - destruct (if rms_below_gate frame_bytes then _ else _) as [[p|] model'].
    + apply state_machine_rings; assumption.
    + split; [exact Hok|]. exists []. rewrite app_nil_r. split; [reflexivity | constructor].
  - split; [exact Hok|]. exists []. rewrite app_nil_r. split; [reflexivity | constructor].
Qed.

Lemma feed_frames_rings (cb : bool) (frames : list bytes) (m : Machine) :
  rings_ok (m_state m) ->
  Forall (fun u => (FRAME_BYTES | len u)) (m_sent m) ->
  rings_ok (m_state (fst (feed_frames (_process_frame cb) m frames))) /\
  Forall (fun u => (FRAME_BYTES | len u))
    (m_sent (fst (feed_frames (_process_frame cb) m frames))).
Proof.
  intros Hok Hsent.
  apply (feed_frames_invariant (_process_frame cb)
           (fun m => rings_ok (m_state m) /\
                     Forall (fun u => (FRAME_BYTES | len u)) (m_sent m)));
    [|split; assumption].
  intros s f [Hs1 Hs2].
  destruct (_process_frame_rings cb s f Hs1) as (Hok' & new & -> & Hnew).
  split; [exact Hok'|]. apply Forall_app. split; assumption.
Qed.

Definition service_rings_ok (self : VadService) : Prop :=
  forall connection_id state,
    connections self !! connection_id = Some state -> rings_ok state.

Lemma connection_state_rings_ok (self : VadService) (connection_id : string) :
  service_rings_ok self -> rings_ok (connection_state self connection_id).
Proof.
  intros Hok. unfold connection_state.
  destruct (connections self !! connection_id) as [state|] eqn:E; cbn [default].
  - exact (Hok _ _ E).
  - exact reset_rings_ok.
Qed.

Lemma process_audio_chunk_rings (self : VadService) (clock : nat)
    (connection_id : string) (audio_bytes : bytes) (cb : bool) :
  service_rings_ok self ->
  service_rings_ok (cr_self (process_audio_chunk self clock connection_id audio_bytes cb))
  /\ (vad_model_loaded self = true ->
      Forall (fun u => (FRAME_BYTES | len u))
        (cr_sent (process_audio_chunk self clock connection_id audio_bytes cb))).
Proof.
  intros Hok. destruct (vad_model_loaded self) eqn:Hloaded.
  - rewrite process_audio_chunk_frames by exact Hloaded. cbv zeta.
    cbn [cr_self cr_sent connections].
    destruct (feed_frames_rings cb
                (fst (split_chunk (partial_frame (connection_state self connection_id))
                        audio_bytes))
                (chunk_machine self clock connection_id)) as [Hok' Hsent].
    { apply set_partial_frame_rings_ok, connection_state_rings_ok, Hok. }
    { constructor. }
    split; [|intros _; exact Hsent].
    intros cid st Hlook. cbn [connections] in Hlook.
    destruct (decide (connection_id = cid)) as [->|Hne].
    + rewrite lookup_insert_eq in Hlook. injection Hlook as <-.
      destruct (snd _); [apply set_partial_frame_rings_ok| |]; exact Hok'.
    + rewrite lookup_insert_ne in Hlook by exact Hne. exact (Hok _ _ Hlook).
  - unfold process_audio_chunk. rewrite Hloaded. cbn. split; [exact Hok | discriminate].
Qed.

Lemma reachable_rings_ok (self : VadService) (clock : nat) :
  reachable self clock -> service_rings_ok self.
Proof.
  intros (torch & hub & Hreach). induction Hreach.
  - intros cid st Hlook. unfold VadService_init in Hlook.
    destruct torch; [destruct hub|]; simpl in Hlook;
      rewrite lookup_empty in Hlook; discriminate.
  - apply process_audio_chunk_rings. assumption.
  - intros cid st Hlook. unfold cleanup_connection in Hlook.
    destruct (connections self !! connection_id) eqn:E.
    + cbn [connections] in Hlook. apply lookup_delete_Some in Hlook as [_ Hlook].
      exact (IHHreach _ _ Hlook).
    + exact (IHHreach _ _ Hlook).
Qed.

End RingFacts.

Lemma process_audio_chunk_sent_min `{Collaborators} (self : VadService) (clock : nat)
    (connection_id : string) (audio_bytes : bytes) (cb : bool) :
  vad_model_loaded self = true ->
  Forall (fun u => MIN_UTTERANCE_SAMPLES * 2 <= len u)
    (cr_sent (process_audio_chunk self clock connection_id audio_bytes cb)).
Proof.
  intros Hloaded. rewrite process_audio_chunk_frames by exact Hloaded.
  cbv zeta. cbn [cr_sent].
  apply (feed_frames_invariant (_process_frame cb)
           (fun m => Forall (fun u => MIN_UTTERANCE_SAMPLES * 2 <= len u) (m_sent m))).
  - intros s f Hs. destruct (_process_frame_sent cb s f) as (new & -> & Hnew).
    apply Forall_app. split; assumption.
  - constructor.
Qed.

(** X9. Ring capacities: in every service reachable from the constructor, a
    stored connection state holds at most [PRE_SPEECH_FRAMES] = 12 frames of
    pre-speech, at most [SPEECH_BUFFER_FRAMES] = 15 decisions, at most 20
    frames of trailing silence (the 21st ends the utterance and resets the
    state), and a remainder of at most 1023 bytes; every frame in the two
    rings has [FRAME_BYTES] bytes. *)
Theorem ring_capacities `{Collaborators} (self : VadService) (clock : nat)
    (connection_id : string) (state : VadState) :
  reachable self clock ->
  connections self !! connection_id = Some state ->
  len (pre_speech_buffer state) <= 12 /\
  len (vad_decision_buffer state) <= 15 /\
  len (trailing_silence_buffer state) <= 20 /\
  len (partial_frame state) <= 1023 /\
  Forall (fun f => len f = 1024) (pre_speech_buffer state) /\
  Forall (fun f => len f = 1024) (trailing_silence_buffer state).
Proof.
  intros Hreach Hlook.
  destruct (reachable_rings_ok self clock Hreach connection_id state Hlook)
    as (Hpre & Hwin & Htrail & Hpf & Htf & _).
  destruct (reachable_ok self clock Hreach connection_id state Hlook) as [_ Hpart].
  rewrite PRE_SPEECH_FRAMES_value in Hpre. rewrite SPEECH_BUFFER_FRAMES_value in Hwin.
  rewrite TRAILING_SILENCE_FRAMES_value in Htrail. rewrite FRAME_BYTES_value in *.
  repeat split; try assumption; lia.
Qed.

(** Thirty silent frames for one connection of the bench, in one call. *)
Definition thirty_silent_frames : bytes := concat (tones Byte.x00 30).

Lemma ring_capacities_witness :
  len (pre_speech_buffer
         (connection_state
            (cr_self (@process_audio_chunk bench bench_service 0 "c"
                        thirty_silent_frames true)) "c")) <= 12.
Proof.
  destruct (@ring_capacities bench
              (cr_self (@process_audio_chunk bench bench_service 0 "c"
                          thirty_silent_frames true))
              (cr_clock (@process_audio_chunk bench bench_service 0 "c"
                           thirty_silent_frames true))
              "c"
              (connection_state
                 (cr_self (@process_audio_chunk bench bench_service 0 "c"
                             thirty_silent_frames true)) "c"))
    as (Hpre & _).
  - exists true, (Some 0%nat). apply reachable_process. apply reachable_start.
  - vm_compute. reflexivity.
  - exact Hpre.
Defined.

(** X10. Utterances are whole frames: on a service reachable from the
    constructor, in segmentation mode, every buffer given to the callback is a
    whole number of frames; with the minimum of 38400 bytes that makes at
    least 38 frames, 38912 bytes. *)
Theorem utterance_whole_frames `{Collaborators} (self : VadService) (clock : nat)
    (connection_id : string) (audio_bytes : bytes) (cb : bool) :
  reachable self clock ->
  vad_model_loaded self = true ->
  Forall (fun utterance =>
            len utterance mod FRAME_BYTES = 0 /\ 38 * FRAME_BYTES <= len utterance)
    (cr_sent (process_audio_chunk self clock connection_id audio_bytes cb)).
Proof.
  intros Hreach Hloaded.
  destruct (process_audio_chunk_rings self clock connection_id audio_bytes cb
              (reachable_rings_ok self clock Hreach)) as [_ Hwhole].
  specialize (Hwhole Hloaded).
  pose proof (process_audio_chunk_sent_min self clock connection_id audio_bytes cb
                Hloaded) as Hmin.
  rewrite List.Forall_forall in *. intros u Hu.
  specialize (Hwhole u Hu). specialize (Hmin u Hu). cbv beta in *.
  rewrite MIN_UTTERANCE_SAMPLES_value in Hmin. rewrite FRAME_BYTES_value in *.
  destruct Hwhole as [k Hk]. split.
  - rewrite Hk. apply Z.mod_mul. lia.
  - lia.
Qed.

Lemma utterance_whole_frames_witness :
  Forall (fun utterance =>
            len utterance mod FRAME_BYTES = 0 /\ 38 * FRAME_BYTES <= len utterance)
    (cr_sent (@process_audio_chunk bench bench_service 0 "c" long_utterance true)).
Proof.
  apply (@utterance_whole_frames bench bench_service 0 "c" long_utterance true).
  - exists true, (Some 0%nat). apply reachable_start.
  - reflexivity.
Defined.

(** ** Frames that are not confident speech *)

Section CalmFacts.
Context `{Collaborators}.

(** A frame that cannot count as speech: it is below the noise gate, or the
    model returns on it, in whatever state, a probability that does not
    exceed [STRONG_SPEECH_PROB] (a NaN included). *)
Definition not_speech (frame_bytes : bytes) : Prop :=
  rms_below_gate frame_bytes = true \/
  forall mdl, exists p,
    fst (model_call mdl frame_bytes) = Returned p /\
    (STRONG_SPEECH_PROB <? p)%float = false.

Lemma state_machine_quiet (cb : bool) (m : Machine) (model' : option Model)
    (frame_bytes : bytes) :
  quiet (m_state m) ->
  state_machine cb m model' frame_bytes false =
    ({| m_state := push_frame (m_state m) frame_bytes false;
        m_model := model'; m_clock := m_clock m; m_sent := m_sent m |}, Normal)
  /\ quiet (push_frame (m_state m) frame_bytes false).
Proof.
  intros [Hidle Hwin].
  assert (Hwin' : Forall (fun b => b = false)
            (deque_append SPEECH_BUFFER_FRAMES (vad_decision_buffer (m_state m)) false))
    by (apply deque_append_Forall; [exact Hwin | reflexivity]).
  split; [|split; [exact Hidle | exact Hwin']].
  unfold state_machine. cbv zeta. rewrite state_machine_start_condition.
  cbn [push_frame in_speech vad_decision_buffer]. rewrite Hidle. cbn [negb].
  rewrite (count_true_all_false _ Hwin').
  rewrite start_as_specified_zero
    by (apply (window_bounds (vad_decision_buffer (m_state m)) false)).
  reflexivity.
Qed.

Lemma calm_frame (cb : bool) (m : Machine) (frame_bytes : bytes) :
  quiet (m_state m) ->
  is_Some (m_model m) ->
  len frame_bytes = FRAME_BYTES ->
  not_speech frame_bytes ->
  snd (_process_frame cb m frame_bytes) = Normal /\
  quiet (m_state (fst (_process_frame cb m frame_bytes))) /\
  is_Some (m_model (fst (_process_frame cb m frame_bytes))) /\
  m_sent (fst (_process_frame cb m frame_bytes)) = m_sent m /\
  m_clock (fst (_process_frame cb m frame_bytes)) = m_clock m.
Proof.
  intros Hq [mdl Hmdl] Hlen Hcalm. unfold _process_frame.
  rewrite Hlen, Z.eqb_refl. cbn [negb].
  assert (Hdec : exists p model',
    (if rms_below_gate frame_bytes then (Returned 0%float, m_model m)
     else call_model (m_model m) frame_bytes) = (Returned p, model') /\
    is_Some model' /\ is_speech_of p = false).
  { destruct (rms_below_gate frame_bytes) eqn:Hgate.
    - exists 0%float, (m_model m). repeat split. eexists. exact Hmdl.
    - destruct Hcalm as [Hg | Hscore]; [congruence|].
      destruct (Hscore mdl) as (p & Hp & Hlow).
      rewrite Hmdl. cbn [call_model].
      destruct (model_call mdl frame_bytes) as [r mdl']. cbn [fst] in Hp. subst r.
      exists p, (Some mdl'). repeat split; [eexists; reflexivity|].
      unfold is_speech_of. rewrite Hlow.
      destruct (p <? WEAK_SPEECH_PROB)%float; reflexivity. }
  destruct Hdec as (p & model' & -> & Hsome & ->).
  destruct (state_machine_quiet cb m model' frame_bytes Hq) as [-> Hq'].
  cbn [fst snd m_state m_model m_sent m_clock]. repeat split; try assumption; apply Hq'.
Qed.

Lemma calm_frames (cb : bool) (frames : list bytes) :
  forall m : Machine,
  quiet (m_state m) ->
  is_Some (m_model m) ->
  Forall (fun f => len f = FRAME_BYTES) frames ->
  Forall not_speech frames ->
  snd (feed_frames (_process_frame cb) m frames) = Normal /\
  quiet (m_state (fst (feed_frames (_process_frame cb) m frames))) /\
  is_Some (m_model (fst (feed_frames (_process_frame cb) m frames))) /\
  m_sent (fst (feed_frames (_process_frame cb) m frames)) = m_sent m /\
  m_clock (fst (feed_frames (_process_frame cb) m frames)) = m_clock m.
Proof.
  induction frames as [|f frames IH]; intros m Hq Hm Hlen Hcalm; simpl.
  - repeat split; try assumption; apply Hq.
  - inversion Hlen as [|? ? Hf Hlen']; inversion Hcalm as [|? ? Hc Hcalm']; subst.
    destruct (calm_frame cb m f Hq Hm Hf Hc) as (Hd & Hq' & Hm' & Hs & Hk).
    destruct (_process_frame cb m f) as [m' c]. cbn [fst snd] in *. subst c.
    rewrite <- Hs, <- Hk. apply IH; assumption.
Qed.

Lemma calm_stream (cb : bool) (connection_id : string) (chunks : list bytes) :
  forall (self : VadService) (clock : nat),
  vad_model_loaded self = true ->
  is_Some (model self) ->
  quiet (connection_state self connection_id) ->
  Forall not_speech
    (fst (split_chunk (partial_frame (connection_state self connection_id))
            (concat chunks))) ->
  let r := process_audio_chunks self clock connection_id chunks cb in
  cr_done r = Normal /\ cr_sent r = [] /\
  quiet (connection_state (cr_self r) connection_id) /\ cr_clock r = clock.
Proof.
  induction chunks as [|chunk chunks IH]; intros self clock Hloaded Hmodel Hq Hcalm.
  - simpl. repeat split; apply Hq.
  - cbn [process_audio_chunks]. cbv zeta.
    simpl concat in Hcalm. rewrite split_chunk_app in Hcalm. cbn [fst] in Hcalm.
    apply Forall_app in Hcalm as [Hcalm1 Hcalm2].
    set (state := connection_state self connection_id) in *.
    pose proof (split_chunk_is_framing (partial_frame state) chunk) as (_ & Hlen1 & _).
    rewrite (process_audio_chunk_frames self clock connection_id chunk cb Hloaded).
    cbv zeta. fold state.
    destruct (calm_frames cb (fst (split_chunk (partial_frame state) chunk))
                (chunk_machine self clock connection_id) Hq Hmodel Hlen1 Hcalm1)
      as (Hc & Hq' & Hm & Hs & Hk).
    set (r1 := feed_frames (_process_frame cb) (chunk_machine self clock connection_id)
                 (fst (split_chunk (partial_frame state) chunk))) in *.
    cbn [cr_done cr_self cr_clock cr_sent]. rewrite Hc, Hs, Hk.
    cbn [chunk_machine m_sent m_clock app].
    match goal with
    | |- context [process_audio_chunks ?s _ _ _ _] => set (self' := s)
    end.
    assert (Hstate' : connection_state self' connection_id =
                      set_partial_frame (m_state (fst r1))
                        (snd (split_chunk (partial_frame state) chunk)))
      by apply connection_state_insert.
    destruct (IH self' clock) as (Hc2 & Hs2 & Hq2 & Hk2).
    + reflexivity.
    + exact Hm.
    + rewrite Hstate'. exact Hq'.
    + rewrite Hstate'. exact Hcalm2.
    + cbn [cr_done cr_self cr_clock cr_sent]. repeat split; try assumption; apply Hq2.
Qed.

End CalmFacts.

(** X11. The uncertain band never starts speech: in segmentation mode, on a
    connection that is Idle with no speech decision in its window (a fresh
    one, for instance), a stream in which every complete frame is below the
    noise gate or scores at most [STRONG_SPEECH_PROB] = 0.85 keeps the
    machine Idle: every call returns, the callback is never called and the
    clock is never read, however long the stream. *)
Theorem unconfident_stream_stays_idle `{Collaborators} (self : VadService)
    (clock : nat) (connection_id : string) (chunks : list bytes) (cb : bool) :
  vad_model_loaded self = true ->
  is_Some (model self) ->
  quiet (connection_state self connection_id) ->
  Forall not_speech
    (fst (split_chunk (partial_frame (connection_state self connection_id))
            (concat chunks))) ->
  let r := process_audio_chunks self clock connection_id chunks cb in
  cr_done r = Normal /\ cr_sent r = [] /\
  in_speech (connection_state (cr_self r) connection_id) = false /\
  cr_clock r = clock.
Proof.
  intros Hloaded Hmodel Hq Hcalm.
  destruct (calm_stream cb connection_id chunks self clock Hloaded Hmodel Hq Hcalm)
    as (Hc & Hs & Hq' & Hk).
  cbv zeta. repeat split; try assumption. apply Hq'.
Qed.

(** A stream of the bench: silent frames and frames that score 0.05, cut at
    odd places. *)
Definition unconfident_stream : list bytes :=
  [tone Byte.x02 ++ [Byte.x00];
   skipn 1 (tone Byte.x00) ++ tone Byte.x02;
   tone Byte.x02 ++ tone Byte.x00 ++ [Byte.x01]].

Lemma unconfident_stream_stays_idle_witness :
  cr_sent (@process_audio_chunks bench bench_service 0 "c" unconfident_stream true) = []
  /\ in_speech
       (connection_state
          (cr_self (@process_audio_chunks bench bench_service 0 "c"
                      unconfident_stream true)) "c") = false.
Proof.
  destruct (@unconfident_stream_stays_idle bench bench_service 0 "c"
              unconfident_stream true) as (_ & Hs & Hi & _).
  - reflexivity.
  - eexists. reflexivity.
  - split; [reflexivity | constructor].
  - vm_compute.
    repeat (constructor;
            [first [left; reflexivity
                   | right; intros mdl; eexists; split; reflexivity]|]).
    constructor.
  - split; assumption.
Defined.

(** ** What an utterance is made of *)

(** The last [n] items of a list. *)
Definition lastn {A : Type} (n : nat) (l : list A) : list A :=
  skipn (length l - n) l.

Lemma lastn_length {A : Type} (n : nat) (l : list A) : (length (lastn n l) <= n)%nat.
Proof. unfold lastn. rewrite length_skipn. lia. Qed.

Lemma lastn_snoc {A : Type} (n : nat) (l : list A) (x : A) :
  lastn (S n) (l ++ [x]) = lastn n l ++ [x].
Proof.
  unfold lastn. rewrite length_app. simpl length.
  replace (length l + 1 - S n)%nat with (length l - n)%nat by lia.
  rewrite skipn_app.
  replace (length l - n - length l)%nat with 0%nat by lia. reflexivity.
Qed.

Lemma deque_append_lastn {A : Type} (n : nat) (l : list A) (x : A) :
  deque_append (Z.of_nat (S n)) (lastn (S n) l) x = lastn n l ++ [x].
Proof.
  destruct (deque_append_last (Z.of_nat (S n)) (lastn (S n) l) x) as (older & -> & ->);
    [lia|].
  f_equal. unfold lastn. rewrite skipn_skipn, length_skipn. f_equal. lia.
Qed.

Lemma deque_append_room {A : Type} (maxlen : Z) (d : list A) (x : A) :
  len d < maxlen -> deque_append maxlen d x = d ++ [x].
Proof.
  intros Hroom. unfold deque_append, len in *. rewrite length_app. simpl length.
  replace (length d + 1 - Z.to_nat maxlen)%nat with 0%nat by lia. reflexivity.
Qed.

(** [utterance_shape frames utterance]: the utterance is a run of
    consecutive frames of [frames] with one frame of the run doubled: at most
    11 frames of padding, the onset frame twice, and at least 21 frames after
    it. *)
Definition utterance_shape (frames : list bytes) (utterance : bytes) : Prop :=
  exists (earlier pad : list bytes) (onset : bytes) (body later : list bytes),
    frames = earlier ++ pad ++ onset :: body ++ later /\
    (length pad <= 11)%nat /\
    (21 <= length body)%nat /\
    utterance = concat pad ++ onset ++ onset ++ concat body.

Lemma utterance_shape_within (before frames after : list bytes) (u : bytes) :
  utterance_shape frames u -> utterance_shape (before ++ frames ++ after) u.
Proof.
  intros (earlier & pad & onset & body & later & -> & Hpad & Hbody & ->).
  exists (before ++ earlier), pad, onset, body, (later ++ after).
  repeat split; try assumption.
  rewrite <- !app_assoc. simpl. rewrite <- !app_assoc. reflexivity.
Qed.

(** [tracks history state]: the state is what the frames of [history], the
    frames processed since the last reset, have made it.  The pre-speech
    ring holds the last 12 of them; an Idle state has an empty speech
    buffer; a Speaking state has in its speech buffer the 11 frames before
    the onset frame, the onset frame twice and the frames after it, and its
    trailing ring holds fewer than 21 frames, the last ones. *)
Definition tracks (history : list bytes) (state : VadState) : Prop :=
  pre_speech_buffer state = lastn 12 history /\
  (in_speech state = false -> speech_buffer state = []) /\
  (in_speech state = true ->
   exists (before : list bytes) (onset : bytes) (after held : list bytes),
     history = before ++ onset :: after /\
     speech_buffer state = concat (lastn 11 before) ++ onset ++ onset ++ concat after /\
     after = held ++ trailing_silence_buffer state /\
     len (trailing_silence_buffer state) < TRAILING_SILENCE_FRAMES).

Lemma tracks_reset : tracks [] reset.
Proof. split; [reflexivity|]. split; [reflexivity | discriminate]. Qed.

Section ShapeFacts.
Context `{Collaborators}.

(** One complete frame: the state goes on tracking the longer history, or it
    is reset, and what goes to the callback then has the shape of an
    utterance over the history. *)
Lemma state_machine_tracks (cb : bool) (m : Machine) (model' : option Model)
    (frame_bytes : bytes) (is_speech : bool) (history : list bytes) :
  tracks history (m_state m) ->
  (tracks (history ++ [frame_bytes])
     (m_state (fst (state_machine cb m model' frame_bytes is_speech))) /\
   m_sent (fst (state_machine cb m model' frame_bytes is_speech)) = m_sent m)
  \/ (m_state (fst (state_machine cb m model' frame_bytes is_speech)) = reset /\
      exists new,
        m_sent (fst (state_machine cb m model' frame_bytes is_speech)) = m_sent m ++ new /\
        Forall (utterance_shape (history ++ [frame_bytes])) new).
Proof.
  intros (Hpre & Hidle & Hspeaking).
  pose proof TRAILING_SILENCE_FRAMES_value as HTF.
  assert (Hpre' : deque_append PRE_SPEECH_FRAMES (pre_speech_buffer (m_state m))
                    frame_bytes = lastn 12 (history ++ [frame_bytes])).
  { rewrite Hpre, PRE_SPEECH_FRAMES_value. change 12 with (Z.of_nat 12).
    rewrite deque_append_lastn, lastn_snoc. reflexivity. }
  unfold state_machine. cbv zeta. rewrite state_machine_start_condition.
  cbn [push_frame in_speech vad_decision_buffer trailing_silence_buffer
       speech_buffer pre_speech_buffer].
  destruct (in_speech (m_state m)) eqn:Hin; cbn [negb].
  - destruct (Hspeaking eq_refl) as (before & onset & after & held & Hh & Hsb & Hafter & Hroom).
    assert (Hsb' : speech_buffer (m_state m) ++ frame_bytes =
                   concat (lastn 11 before) ++ onset ++ onset
                     ++ concat (after ++ [frame_bytes])).
    { rewrite Hsb, concat_app. simpl. rewrite app_nil_r, <- !app_assoc. reflexivity. }
    assert (Hh' : history ++ [frame_bytes] = before ++ onset :: after ++ [frame_bytes]).
    { rewrite Hh, <- app_assoc. reflexivity. }
    destruct (_ <? _)%float.
    + rewrite (deque_append_room _ _ _ Hroom).
      destruct (Z.eqb_spec (len (trailing_silence_buffer (m_state m) ++ [frame_bytes]))
                  TRAILING_SILENCE_FRAMES) as [Hfull|Hnot]; cbn [fst m_state m_sent].
      * right. split; [reflexivity|]. fields_cbn.
        destruct (_ <=? _); [destruct cb|];
          try (exists []; rewrite app_nil_r; split; [reflexivity | constructor]).
        eexists. split; [reflexivity|]. constructor; [|constructor].
        exists (firstn (length before - 11) before), (lastn 11 before), onset,
               (after ++ [frame_bytes]), [].
        repeat split.
        -- rewrite Hh', app_nil_r, app_assoc. unfold lastn.
           rewrite firstn_skipn. reflexivity.
        -- apply lastn_length.
        -- rewrite Hafter, <- app_assoc, length_app.
           unfold len in Hfull. lia.
        -- exact Hsb'.
      * left. split; [|reflexivity]. split; [exact Hpre'|].
        split; [fields_cbn; congruence|]. intros _. fields_cbn.
        exists before, onset, (after ++ [frame_bytes]), held.
        repeat split; try assumption.
        -- rewrite Hafter, <- app_assoc. reflexivity.
        -- rewrite len_app in *. unfold len in *. simpl length in *. lia.
    + cbn [fst m_state m_sent]. left. split; [|reflexivity]. split; [exact Hpre'|].
      split; [fields_cbn; congruence|]. intros _. fields_cbn.
      exists before, onset, (after ++ [frame_bytes]), (after ++ [frame_bytes]).
      rewrite app_nil_r. repeat split; try assumption.
  - destruct (start_as_specified _ _); cbn [fst m_state m_sent]; left;
      (split; [|reflexivity]); (split; [exact Hpre'|]); fields_cbn.
    + split; [discriminate|]. intros _.
      exists history, frame_bytes, [], []. rewrite (Hidle eq_refl), Hpre', lastn_snoc.
      repeat split.
      rewrite concat_app. simpl. rewrite !app_nil_r, <- !app_assoc. reflexivity.
    + split; [intros _; exact (Hidle eq_refl) | congruence].
Qed.

Lemma _process_frame_tracks (cb : bool) (m : Machine) (frame_bytes : bytes)
    (history : list bytes) :
  tracks history (m_state m) ->
  len frame_bytes = FRAME_BYTES ->
  snd (_process_frame cb m frame_bytes) = Normal ->
  (tracks (history ++ [frame_bytes]) (m_state (fst (_process_frame cb m frame_bytes))) /\
   m_sent (fst (_process_frame cb m frame_bytes)) = m_sent m)
  \/ (m_state (fst (_process_frame cb m frame_bytes)) = reset /\
      exists new,
        m_sent (fst (_process_frame cb m frame_bytes)) = m_sent m ++ new /\
        Forall (utterance_shape (history ++ [frame_bytes])) new).
Proof.
  intros Htr Hlen. unfold _process_frame. rewrite Hlen, Z.eqb_refl. cbn [negb].
  destruct (if rms_below_gate frame_bytes then _ else _) as [[p|] model'].
  - intros _. apply state_machine_tracks. exact Htr.
  - discriminate.
Qed.

(** Over a run of complete frames, whatever goes to the callback has the
    shape of an utterance over the frames seen. *)
Lemma feed_frames_tracks (cb : bool) (frames : list bytes) :
  forall (m : Machine) (history : list bytes),
  tracks history (m_state m) ->
  Forall (fun f => len f = FRAME_BYTES) frames ->
  exists new,
    m_sent (fst (feed_frames (_process_frame cb) m frames)) = m_sent m ++ new /\
    Forall (utterance_shape (history ++ frames)) new.
Proof.
  induction frames as [|f frames IH]; intros m history Htr Hlen.
  - exists []. simpl. rewrite app_nil_r. split; [reflexivity | constructor].
  - inversion Hlen as [|? ? Hf Hlen']; subst. cbn [feed_frames].
    pose proof (_process_frame_tracks cb m f history Htr Hf) as Hstep.
    destruct (_process_frame_completion cb m f) as [Hc|Hc];
      destruct (_process_frame cb m f) as [m' c] eqn:E; cbn [fst snd] in *; subst c.
    + destruct (Hstep eq_refl) as [[Htr' Hsent] | (Hreset & new & Hsent & Hnew)].
      * destruct (IH m' (history ++ [f]) Htr' Hlen') as (new' & Hs' & Hn').
        exists new'. rewrite Hs', Hsent. split; [reflexivity|].
        rewrite <- app_assoc in Hn'. exact Hn'.
      * destruct (IH m' [] ltac:(rewrite Hreset; exact tracks_reset) Hlen')
          as (new' & Hs' & Hn').
        exists (new ++ new'). rewrite Hs', Hsent, app_assoc. split; [reflexivity|].
        apply Forall_app. split.
        -- eapply List.Forall_impl; [|exact Hnew]. intros u Hu.
           apply (utterance_shape_within [] (history ++ [f]) frames) in Hu.
           simpl in Hu. rewrite <- app_assoc in Hu. exact Hu.
        -- eapply List.Forall_impl; [|exact Hn']. intros u Hu.
           apply (utterance_shape_within (history ++ [f]) frames []) in Hu.
           rewrite app_nil_r, <- app_assoc in Hu. exact Hu.
    + exists []. rewrite app_nil_r.
      assert (Hsame : m_sent m' = m_sent m).
      { pose proof E as E'. unfold _process_frame in E'.
        rewrite Hf, Z.eqb_refl in E'. cbn [negb] in E'.
        destruct (if rms_below_gate f then _ else _) as [[p|] model'].
        - pose proof (state_machine_returns cb m model' f (is_speech_of p)) as Hr.
          rewrite E' in Hr. discriminate.
        - injection E' as <-. reflexivity. }
      split; [exact Hsame | constructor].
Qed.

End ShapeFacts.

(** X12. What an utterance is made of: in segmentation mode, feed a fresh
    connection a stream of chunks whose calls all return.  Every buffer
    given to the callback is a run of consecutive frames of the stream (the
    frames of the splitter over the whole stream), with one frame of the run
    doubled: at most 11 frames of padding, then the onset frame twice, then
    at least 21 further frames.  No byte of an utterance comes from anywhere
    else, and none is out of order. *)
Theorem utterance_is_run_of_frames `{Collaborators} (self : VadService) (clock : nat)
    (connection_id : string) (chunks : list bytes) (cb : bool) :
  vad_model_loaded self = true ->
  connection_state self connection_id = reset ->
  cr_done (process_audio_chunks self clock connection_id chunks cb) = Normal ->
  Forall (utterance_shape (fst (split_chunk [] (concat chunks))))
    (cr_sent (process_audio_chunks self clock connection_id chunks cb)).
Proof.
  intros Hloaded Hfresh Hdone.
  destruct chunks as [|chunk chunks]; [constructor|].
  rewrite process_audio_chunks_join by assumption.
  rewrite process_audio_chunk_frames by exact Hloaded. cbv zeta. cbn [cr_sent].
  rewrite Hfresh. cbn [partial_frame reset].
  destruct (feed_frames_tracks cb (fst (split_chunk [] (concat (chunk :: chunks))))
              (chunk_machine self clock connection_id) [])
    as (new & Hsent & Hnew).
  - unfold chunk_machine. rewrite Hfresh. exact tracks_reset.
  - apply (split_chunk_is_framing [] (concat (chunk :: chunks))).
  - rewrite Hsent. exact Hnew.
Qed.

(** The long utterance of the bench, cut in two in the middle of a frame. *)
Definition long_utterance_cut : list bytes :=
  [firstn 5000 long_utterance; skipn 5000 long_utterance].

Lemma utterance_is_run_of_frames_witness :
  map len (cr_sent (@process_audio_chunks bench bench_service 0 "c"
                      long_utterance_cut true)) = [48128] /\
  Forall (utterance_shape (fst (split_chunk [] (concat long_utterance_cut))))
    (cr_sent (@process_audio_chunks bench bench_service 0 "c" long_utterance_cut true)).
Proof.
  split; [vm_compute; reflexivity|].
  apply (@utterance_is_run_of_frames bench bench_service 0 "c" long_utterance_cut true).
  - reflexivity.
  - reflexivity.
  - vm_compute. reflexivity.
Defined.

(** ** The end-of-utterance countdown *)

Section CountdownFacts.
Context `{Collaborators}.

(** A frame met while Speaking adds at most one frame to the trailing ring,
    and resets the state only when the ring held 20 frames already. *)
Lemma speaking_frame_countdown (cb : bool) (m : Machine) (frame_bytes : bytes) :
  in_speech (m_state m) = true ->
  (in_speech (m_state (fst (_process_frame cb m frame_bytes))) = true /\
   len (trailing_silence_buffer (m_state (fst (_process_frame cb m frame_bytes))))
     <= len (trailing_silence_buffer (m_state m)) + 1 /\
   m_sent (fst (_process_frame cb m frame_bytes)) = m_sent m)
  \/ TRAILING_SILENCE_FRAMES <= len (trailing_silence_buffer (m_state m)) + 1.
Proof.
  intros Hsp. pose proof TRAILING_SILENCE_FRAMES_value as HTF.
  pose proof (len_nonneg (trailing_silence_buffer (m_state m))) as Hnn.
  unfold _process_frame.
  destruct (negb (len frame_bytes =? FRAME_BYTES));
    [left; cbn [fst]; repeat split; [assumption|lia]|].
  destruct (if rms_below_gate frame_bytes then _ else _) as [[p|] model'];
    [|left; cbn [fst m_state]; repeat split; [assumption|lia]].
  unfold state_machine. cbv zeta.
  cbn [push_frame in_speech trailing_silence_buffer]. rewrite Hsp. cbn [negb].
  destruct (_ <? _)%float.
  - destruct (Z.eqb_spec
                (len (deque_append TRAILING_SILENCE_FRAMES
                        (trailing_silence_buffer (m_state m)) frame_bytes))
                TRAILING_SILENCE_FRAMES) as [Hfull|Hnot].
    + right. rewrite deque_append_length in Hfull by lia. lia.
    + left. fields_cbn. repeat split; [assumption|].
      rewrite deque_append_length by lia. lia.
  - left. fields_cbn. repeat split; [assumption|]. unfold len. simpl. lia.
Qed.

Lemma speaking_frames_countdown (cb : bool) (frames : list bytes) :
  forall m : Machine,
  in_speech (m_state m) = true ->
  len (trailing_silence_buffer (m_state m)) + len frames < TRAILING_SILENCE_FRAMES ->
  in_speech (m_state (fst (feed_frames (_process_frame cb) m frames))) = true /\
  m_sent (fst (feed_frames (_process_frame cb) m frames)) = m_sent m.
Proof.
  induction frames as [|f frames IH]; intros m Hsp Hroom; simpl.
  - split; [exact Hsp | reflexivity].
  - assert (Hlen : len (f :: frames) = len frames + 1) by (unfold len; simpl length; lia).
    rewrite Hlen in Hroom. pose proof (len_nonneg frames).
    destruct (speaking_frame_countdown cb m f Hsp) as [(Hsp' & Hgrow & Hsent) | Hfull];
      [|lia].
    destruct (_process_frame cb m f) as [m' c]. cbn [fst snd] in *.
    destruct c; cbn [fst]; try (split; assumption).
    rewrite <- Hsent. apply IH; [exact Hsp' | lia].
Qed.

(** A frame met while Speaking that leaves the machine Speaking with a
    window ratio of at least [SPEECH_RELEASE_RATIO] leaves the trailing ring
    empty. *)
Lemma speaking_frame_resumes (cb : bool) (m m' : Machine) (frame_bytes : bytes) :
  in_speech (m_state m) = true ->
  len frame_bytes = FRAME_BYTES ->
  _process_frame cb m frame_bytes = (m', Normal) ->
  in_speech (m_state m') = true ->
  release_test (count_true (vad_decision_buffer (m_state m')))
    (len (vad_decision_buffer (m_state m'))) = false ->
  trailing_silence_buffer (m_state m') = [].
Proof.
  intros Hsp Hlen. unfold _process_frame. rewrite Hlen, Z.eqb_refl. cbn [negb].
  destruct (if rms_below_gate frame_bytes then _ else _) as [[p|] model'];
    [|intros [=]].
  unfold state_machine, release_test. cbv zeta.
  cbn [push_frame in_speech vad_decision_buffer trailing_silence_buffer]. rewrite Hsp.
  cbn [negb].
  destruct (_ <? _)%float eqn:Hrel.
  - destruct (_ =? TRAILING_SILENCE_FRAMES); intros [= <-]; fields_cbn.
    + discriminate.
    + intros _ Hno. rewrite Hrel in Hno. discriminate.
  - intros [= <-]. fields_cbn. reflexivity.
Qed.

End CountdownFacts.

(** X13. The countdown to the end of an utterance.  In segmentation mode,
    when a connection is Speaking with [t] frames in its trailing ring, a
    chunk that completes fewer than [21 - t] frames cannot end the
    utterance: the connection is Speaking afterwards and the callback is not
    called, whatever the frames hold.  And a frame that leaves the machine
    Speaking with a window ratio of at least 0.25 empties the trailing ring,
    so that the frames counted before it count no more. *)
Theorem countdown_needs_full_ring `{Collaborators} (self : VadService) (clock : nat)
    (connection_id : string) (audio_bytes : bytes) (cb : bool) :
  vad_model_loaded self = true ->
  in_speech (connection_state self connection_id) = true ->
  len (trailing_silence_buffer (connection_state self connection_id))
    + len (fst (split_chunk (partial_frame (connection_state self connection_id))
                  audio_bytes))
    < TRAILING_SILENCE_FRAMES ->
  in_speech
    (connection_state
       (cr_self (process_audio_chunk self clock connection_id audio_bytes cb))
       connection_id) = true /\
  cr_sent (process_audio_chunk self clock connection_id audio_bytes cb) = [] /\
  forall (m m' : Machine) (frame_bytes : bytes),
    in_speech (m_state m) = true ->
    len frame_bytes = FRAME_BYTES ->
    _process_frame cb m frame_bytes = (m', Normal) ->
    in_speech (m_state m') = true ->
    (speech_ratio_of (count_true (vad_decision_buffer (m_state m')))
       (len (vad_decision_buffer (m_state m'))) <? SPEECH_RELEASE_RATIO)%float = false ->
    trailing_silence_buffer (m_state m') = [].
Proof.
  intros Hloaded Hsp Hroom.
  rewrite process_audio_chunk_frames by exact Hloaded. cbv zeta.
  cbn [cr_self cr_sent]. rewrite connection_state_insert.
  destruct (speaking_frames_countdown cb
              (fst (split_chunk (partial_frame (connection_state self connection_id))
                      audio_bytes))
              (chunk_machine self clock connection_id) Hsp Hroom) as [Hsp' Hsent].
  split; [|split].
  - destruct (snd _); exact Hsp'.
  - exact Hsent.
  - intros m m' f. apply speaking_frame_resumes.
Qed.

(** The bench service after 14 speech frames and 20 silent ones for ["c"]:
    Speaking, with 9 frames in the trailing ring. *)
Definition bench_counting : @VadService bench :=
  cr_self (@process_audio_chunk bench bench_service 0 "c"
             (concat (tones Byte.x01 14 ++ tones Byte.x02 20)) true).

Lemma countdown_needs_full_ring_witness :
  in_speech
    (connection_state
       (cr_self (@process_audio_chunk bench bench_counting 2 "c"
                   (concat (tones Byte.x02 11)) true)) "c") = true.
Proof.
  apply (@countdown_needs_full_ring bench bench_counting 2 "c"
           (concat (tones Byte.x02 11)) true).
  - vm_compute. reflexivity.
  - vm_compute. reflexivity.
  - vm_compute. reflexivity.
Defined.

(** ** The metadata of an utterance, and how one starts *)

Section OnsetFacts.
Context `{Collaborators}.

(** A property of connection states that the fresh state has, that does not
    depend on the stored remainder and that every frame keeps holds of every
    stored state of every reachable service. *)
Lemma reachable_invariant (P : VadState -> Prop) :
  P reset ->
  (forall state p, P state -> P (set_partial_frame state p)) ->
  (forall cb m f, P (m_state m) -> P (m_state (fst (_process_frame cb m f)))) ->
  forall (self : VadService) (clock : nat) (connection_id : string) (state : VadState),
  reachable self clock ->
  connections self !! connection_id = Some state -> P state.
Proof.
  intros Hreset Hpartial Hframe self clock connection_id state (torch & hub & Hreach).
  revert connection_id state.
  induction Hreach as [clock|self clock cid audio cb Hreach IH|self clock cid Hreach IH];
    intros connection_id state Hlook.
  - unfold VadService_init in Hlook.
    destruct torch; [destruct hub|]; simpl in Hlook;
      rewrite lookup_empty in Hlook; discriminate.
  - destruct (vad_model_loaded self) eqn:Hloaded.
    + rewrite process_audio_chunk_frames in Hlook by exact Hloaded.
      cbv zeta in Hlook. cbn [cr_self connections] in Hlook.
      destruct (decide (cid = connection_id)) as [->|Hne].
      * rewrite lookup_insert_eq in Hlook. injection Hlook as <-.
        assert (Hend : P (m_state (fst (feed_frames (_process_frame cb)
                            (chunk_machine self clock connection_id)
                            (fst (split_chunk
                                    (partial_frame (connection_state self connection_id))
                                    audio)))))).
        { apply (feed_frames_invariant (_process_frame cb) (fun m => P (m_state m))).
          - intros s f. apply Hframe.
          - apply Hpartial. unfold connection_state.
            destruct (connections self !! connection_id) as [st|] eqn:E; cbn [default].
            + exact (IH _ _ E).
            + exact Hreset. }
        destruct (snd _); [apply Hpartial| |]; exact Hend.
      * rewrite lookup_insert_ne in Hlook by exact Hne. exact (IH _ _ Hlook).
    + unfold process_audio_chunk in Hlook. rewrite Hloaded in Hlook.
      exact (IH _ _ Hlook).
  - unfold cleanup_connection in Hlook.
    destruct (connections self !! cid) eqn:E.
    + cbn [connections] in Hlook. apply lookup_delete_Some in Hlook as [_ Hlook].
      exact (IH _ _ Hlook).
    + exact (IH _ _ Hlook).
Qed.

(** The metadata goes with the mode: a Speaking state has a start time and
    an utterance id, taken from two consecutive readings of the clock; an
    Idle state has neither. *)
Definition metadata_ok (state : VadState) : Prop :=
  if in_speech state then
    exists k, speech_start_time state = Some (time_time k) /\
              current_utterance_id state = Some (utterance_name (time_time (S k)))
  else speech_start_time state = None /\ current_utterance_id state = None.

Lemma _process_frame_metadata (cb : bool) (m : Machine) (frame_bytes : bytes) :
  metadata_ok (m_state m) ->
  metadata_ok (m_state (fst (_process_frame cb m frame_bytes))).
Proof.
  intros Hok. unfold _process_frame.
  destruct (negb (len frame_bytes =? FRAME_BYTES)); [exact Hok|].
  destruct (if rms_below_gate frame_bytes then _ else _) as [[p|] model'];
    [|exact Hok].
  unfold state_machine. cbv zeta. rewrite state_machine_start_condition.
  unfold metadata_ok in *.
  cbn [push_frame in_speech]. destruct (in_speech (m_state m)) eqn:Hin; cbn [negb].
  - destruct (_ <? _)%float; [destruct (_ =? TRAILING_SILENCE_FRAMES)|]; fields_cbn;
      try rewrite Hin; try exact Hok. split; reflexivity.
  - destruct (start_as_specified _ _); fields_cbn; try rewrite Hin; try exact Hok.
    exists (m_clock m). split; reflexivity.
Qed.

End OnsetFacts.

(** X14. Utterance metadata: in every service reachable from the
    constructor, a stored state that is Speaking carries a start time and an
    utterance id, the start time being one reading of the clock and the id
    the name made from the very next reading; a stored state that is Idle
    carries neither. *)
Theorem metadata_follows_mode `{Collaborators} (self : VadService) (clock : nat)
    (connection_id : string) (state : VadState) :
  reachable self clock ->
  connections self !! connection_id = Some state ->
  if in_speech state then
    exists k, speech_start_time state = Some (time_time k) /\
              current_utterance_id state = Some (utterance_name (time_time (S k)))
  else speech_start_time state = None /\ current_utterance_id state = None.
Proof.
  apply (reachable_invariant metadata_ok).
  - split; reflexivity.
  - intros st p Hok. exact Hok.
  - intros cb m f. apply _process_frame_metadata.
Qed.

Lemma metadata_follows_mode_witness :
  is_Some (speech_start_time (connection_state bench_speaking "a")).
Proof.
  pose proof (@metadata_follows_mode bench bench_speaking 2 "a"
                (connection_state bench_speaking "a")) as Hmeta.
  assert (Hsp : in_speech (connection_state bench_speaking "a") = true)
    by (vm_compute; reflexivity).
  rewrite Hsp in Hmeta. destruct Hmeta as (k & -> & _).
  - exists true, (Some 0%nat).
    apply (@reachable_process bench _ bench_service 0 "a" (tone Byte.x01) true).
    apply reachable_start.
  - vm_compute. reflexivity.
  - eexists. reflexivity.
Defined.

(** X15. No warm-up: in segmentation mode, on a fresh connection, a chunk
    that is one complete frame above the noise gate on which the model
    returns a probability above [STRONG_SPEECH_PROB] starts an utterance at
    once.  The call returns, the callback is not called, the clock is read
    twice, and the connection is Speaking with that frame twice in its
    speech buffer, once in its pre-speech ring and one speech decision in
    its window. *)
Theorem confident_frame_starts_speech `{Collaborators} (self : VadService)
    (clock : nat) (connection_id : string) (frame_bytes : bytes) (cb : bool)
    (mdl : Model) (p : float) :
  vad_model_loaded self = true ->
  model self = Some mdl ->
  connection_state self connection_id = reset ->
  scores frame_bytes p ->
  (STRONG_SPEECH_PROB <? p)%float = true ->
  let r := process_audio_chunk self clock connection_id frame_bytes cb in
  cr_done r = Normal /\ cr_sent r = [] /\ cr_clock r = S (S clock) /\
  connection_state (cr_self r) connection_id =
    {| speech_buffer := frame_bytes ++ frame_bytes;
       pre_speech_buffer := [frame_bytes];
       vad_decision_buffer := [true];
       trailing_silence_buffer := [];
       in_speech := true;
       speech_start_time := Some (time_time clock);
       current_utterance_id := Some (utterance_name (time_time (S clock)));
       partial_frame := [] |}.
Proof.
  intros Hloaded Hmodel Hfresh Hscore Hhigh. cbv zeta.
  assert (Hspeech : is_speech_of p = true) by (unfold is_speech_of; rewrite Hhigh; reflexivity).
  rewrite process_audio_chunk_frames by exact Hloaded. cbv zeta.
  rewrite Hfresh. cbn [partial_frame reset].
  rewrite (split_chunk_framing [] frame_bytes [frame_bytes] []).
  2: { destruct Hscore as (Hlen & _). repeat split.
       - simpl. rewrite !app_nil_r. reflexivity.
       - constructor; [exact Hlen | constructor]. }
  cbn [fst snd feed_frames].
  rewrite (scored_frame cb (chunk_machine self clock connection_id) mdl frame_bytes p
             Hscore Hmodel), Hspeech.
  unfold state_machine, chunk_machine. cbv zeta. rewrite state_machine_start_condition.
  rewrite Hfresh.
  cbn [m_state m_clock m_sent set_partial_frame reset push_frame in_speech
       vad_decision_buffer pre_speech_buffer speech_buffer trailing_silence_buffer
       speech_start_time current_utterance_id partial_frame negb].
  change (deque_append SPEECH_BUFFER_FRAMES [] true) with [true].
  change (deque_append PRE_SPEECH_FRAMES [] frame_bytes) with [frame_bytes].
  change (start_as_specified (count_true [true]) (len [true])) with true.
  cbn [fst snd cr_done cr_sent cr_clock cr_self m_state m_clock m_sent].
  rewrite connection_state_insert.
  repeat split. unfold start_speech, set_partial_frame. fields_cbn.
  simpl. rewrite app_nil_r. reflexivity.
Qed.

Lemma confident_frame_starts_speech_witness :
  in_speech
    (connection_state
       (cr_self (@process_audio_chunk bench bench_service 0 "c" (tone Byte.x01) true))
       "c") = true.
Proof.
  destruct (@confident_frame_starts_speech bench bench_service 0 "c" (tone Byte.x01)
              true 0%nat 0.95%float) as (_ & _ & _ & ->).
  - reflexivity.
  - reflexivity.
  - reflexivity.
  - repeat split.
  - reflexivity.
  - reflexivity.
Defined.

(** * The callers *)

(** ** DeepgramService: the sending side (deepgram_service.py) *)

(** The fields the sending side reads and writes.  [connection] is [None] or
    the live client, seen through the audio payloads its [send] has accepted
    from [send_audio] (oldest first; the keep-alive messages are not audio
    and are left out); [_send_count] is an attribute that does not exist
    before the first accepted payload; [on_error] tells whether the callback
    is set. *)
Record DeepgramService : Type := {
  connection : option (list bytes);
  _is_connected : bool;
  _last_error : option string;
  _send_count : option Z;
  on_error : bool
}.

(** What a call of [send_audio] leaves behind: the service, the value
    returned, and whether the [on_error] callback was called. *)
Record SendRun : Type := {
  sr_self : DeepgramService;
  sr_result : bool;
  sr_reported : bool
}.

(** [send_audio] (lines 344-377).  [send_raises] tells whether
    [self.connection.send] raises on this call; a [send] that raises accepts
    nothing.  Every exception is caught inside, so the call always returns
    its boolean. *)
Definition send_audio (self : DeepgramService) (audio_data : bytes) (send_raises : bool)
  : SendRun :=
  match connection self with
  | None => {| sr_self := self; sr_result := false; sr_reported := false |}
  | Some accepted =>
      if negb (_is_connected self) then
        {| sr_self := self; sr_result := false; sr_reported := false |}
      else if len audio_data =? 0 then
        {| sr_self := self; sr_result := false; sr_reported := false |}
      else if send_raises then
        {| sr_self :=
             {| connection := connection self;
                _is_connected := false;
                _last_error := _last_error self;
                _send_count := _send_count self;
                on_error := on_error self |};
           sr_result := false;
           sr_reported := on_error self |}
      else
        {| sr_self :=
             {| connection := Some (accepted ++ [audio_data]);
                _is_connected := _is_connected self;
                _last_error := _last_error self;
                _send_count := Some (default 0 (_send_count self) + 1);
                on_error := on_error self |};
           sr_result := true;
           sr_reported := false |}
  end.

(** [_on_open] (lines 151-154) *)
Definition _on_open (self : DeepgramService) : DeepgramService := {|
  connection := connection self;
  _is_connected := true;
  _last_error := _last_error self;
  _send_count := _send_count self;
  on_error := on_error self
|}.

(** [_on_error] (lines 319-330).  [error] is the text of the error when one
    is given and is truthy, [None] otherwise. *)
Definition _on_error (self : DeepgramService) (error : option string)
  : DeepgramService := {|
  connection := connection self;
  _is_connected := false;
  _last_error := Some (default "Unknown error"%string error);
  _send_count := _send_count self;
  on_error := on_error self
|}.

(** [_on_close] (lines 336-342) *)
Definition _on_close (self : DeepgramService) : DeepgramService := {|
  connection := connection self;
  _is_connected := false;
  _last_error := _last_error self;
  _send_count := _send_count self;
  on_error := on_error self
|}.

(** [get_last_error] (lines 332-334) *)
Definition get_last_error (self : DeepgramService) : option string := _last_error self.

(** [finish] and [close] (lines 379-398).  [finish_raises] tells whether
    [self.connection.finish] raises; the exception is logged and the flag is
    then left as it was. *)
Definition finish (self : DeepgramService) (finish_raises : bool) : DeepgramService :=
  match connection self with
  | None => self
  | Some _ => if finish_raises then self else _on_close self
  end.

(** Successive calls of [send_audio], each with its payload and the
    behaviour of [send] on it; the results are listed in order. *)
Fixpoint send_audio_all (self : DeepgramService) (calls : list (bytes * bool))
  : DeepgramService * list bool :=
  match calls with
  | [] => (self, [])
  | (audio_data, send_raises) :: calls' =>
      let r := send_audio self audio_data send_raises in
      let '(self', results) := send_audio_all (sr_self r) calls' in
      (self', sr_result r :: results)
  end.

(** The payloads of the calls that returned [True]. *)
Fixpoint accepted_payloads (calls : list (bytes * bool)) (results : list bool)
  : list bytes :=
  match calls, results with
  | (audio_data, _) :: calls', true :: results' =>
      audio_data :: accepted_payloads calls' results'
  | _ :: calls', false :: results' => accepted_payloads calls' results'
  | _, _ => []
  end.

Lemma send_audio_all_disconnected (calls : list (bytes * bool)) :
  forall self : DeepgramService,
  _is_connected self = false ->
  send_audio_all self calls = (self, repeat false (length calls)).
Proof.
  induction calls as [|[data raises] calls IH]; intros self Hoff; [reflexivity|].
  cbn [send_audio_all length repeat].
  assert (Hsend : send_audio self data raises =
                  {| sr_self := self; sr_result := false; sr_reported := false |}).
  { unfold send_audio. rewrite Hoff. destruct (connection self); reflexivity. }
  rewrite Hsend. cbn [sr_self sr_result]. rewrite (IH self Hoff). reflexivity.
Qed.

(** X16. What Deepgram is sent.  Over any sequence of [send_audio] calls on
    a service with a connection, the connection has accepted exactly the
    payloads of the calls that returned [True], in order, after what it had
    accepted before; [_send_count] has grown by their number; [True] is
    never returned for empty data; and once a [send] has raised, every later
    call returns [False] and hands nothing to the connection. *)
Theorem send_audio_accounting (calls : list (bytes * bool)) :
  forall (self : DeepgramService) (accepted : list bytes),
  connection self = Some accepted ->
  let self' := fst (send_audio_all self calls) in
  let results := snd (send_audio_all self calls) in
  connection self' = Some (accepted ++ accepted_payloads calls results) /\
  default 0 (_send_count self')
    = default 0 (_send_count self) + len (accepted_payloads calls results) /\
  Forall (fun payload => payload <> []) (accepted_payloads calls results) /\
  forall (before after : list (bytes * bool)) (audio_data : bytes),
    calls = before ++ (audio_data, true) :: after ->
    audio_data <> [] ->
    _is_connected (fst (send_audio_all self before)) = true ->
    skipn (S (length before)) results = repeat false (length after) /\
    self' = sr_self (send_audio (fst (send_audio_all self before)) audio_data true).
Proof.
  induction calls as [|[data raises] calls IH]; intros self accepted Hconn; cbv zeta.
  - cbn [send_audio_all fst snd accepted_payloads]. rewrite app_nil_r.
    split; [assumption|]. split; [unfold len; simpl; lia|]. split; [constructor|].
    intros [|? ?] after audio_data Hcalls; discriminate.
  - cbn [send_audio_all].
    destruct (send_audio_all (sr_self (send_audio self data raises)) calls)
      as [self' results] eqn:Eall.
    cbn [fst snd].
    assert (Hcases :
      (send_audio self data raises =
         {| sr_self := self; sr_result := false; sr_reported := false |})
      \/ (raises = true /\ data <> [] /\ _is_connected self = true /\
          sr_result (send_audio self data raises) = false /\
          connection (sr_self (send_audio self data raises)) = Some accepted /\
          _send_count (sr_self (send_audio self data raises)) = _send_count self /\
          _is_connected (sr_self (send_audio self data raises)) = false)
      \/ (raises = false /\ data <> [] /\
          sr_result (send_audio self data raises) = true /\
          connection (sr_self (send_audio self data raises)) = Some (accepted ++ [data]) /\
          default 0 (_send_count (sr_self (send_audio self data raises)))
            = default 0 (_send_count self) + 1)).
    { unfold send_audio. rewrite Hconn.
      destruct (_is_connected self); cbn [negb]; [|left; reflexivity].
      destruct (Z.eqb_spec (len data) 0) as [Hempty|Hdata]; [left; reflexivity|].
      assert (data <> []) by (intros ->; apply Hdata; reflexivity).
      destruct raises; [right; left | right; right]; cbn; repeat split; assumption. }
    assert (Htail : forall before after audio_data,
      (data, raises) :: calls = before ++ (audio_data, true) :: after ->
      (before = [] /\ data = audio_data /\ raises = true /\ calls = after) \/
      exists before', before = (data, raises) :: before' /\
                      calls = before' ++ (audio_data, true) :: after).
    { intros [|c before'] after audio_data Hcalls.
      - injection Hcalls as -> -> ->. left. repeat split.
      - injection Hcalls as -> Hcalls. right. exists before'.
        split; [reflexivity | exact Hcalls]. }
    destruct Hcases as [Hsame | [(-> & Hdata & Hon & Hres & Hconn' & Hcount' & Hoff)
                                | (-> & Hdata & Hres & Hconn' & Hcount')]].
    + rewrite Hsame in *. cbn [sr_self sr_result] in *.
      specialize (IH self accepted Hconn). rewrite Eall in IH. cbv zeta in IH.
      cbn [fst snd] in IH. destruct IH as (H1 & H2 & H3 & H4).
      cbn [accepted_payloads].
      split; [assumption|]. split; [assumption|]. split; [assumption|].
      intros before after audio_data Hcalls Hne Hbefore.
      destruct (Htail before after audio_data Hcalls)
        as [(-> & -> & -> & ->) | (before' & -> & Hcalls')].
      * cbn [send_audio_all fst] in Hbefore.
        exfalso. unfold send_audio in Hsame. rewrite Hconn, Hbefore in Hsame.
        cbn [negb] in Hsame.
        destruct (Z.eqb_spec (len audio_data) 0) as [Hz|Hz].
        -- apply len_nil_inv in Hz. contradiction.
        -- apply (f_equal (fun r => _is_connected (sr_self r))) in Hsame.
           cbn in Hsame. congruence.
      * cbn [send_audio_all] in Hbefore |- *. rewrite Hsame in Hbefore |- *.
        cbn [sr_self] in Hbefore |- *.
        destruct (send_audio_all self before') as [sb rb] eqn:Eb. cbn [fst] in *.
        specialize (H4 before' after audio_data Hcalls' Hne).
        rewrite Eb in H4. cbn [fst] in H4. specialize (H4 Hbefore).
        cbn [length skipn]. exact H4.
    + rewrite (send_audio_all_disconnected calls _ Hoff) in Eall.
      injection Eall as <- <-. rewrite Hres. cbn [accepted_payloads].
      assert (Hnone : forall n, accepted_payloads calls (repeat false n) = []).
      { clear. induction calls as [|[d r] calls IH]; intros [|n]; cbn; auto. }
      rewrite Hnone, app_nil_r, Hconn', Hcount'.
      split; [reflexivity|]. split; [unfold len; simpl; lia|]. split; [constructor|].
      intros before after audio_data Hcalls Hne Hbefore.
      destruct (Htail before after audio_data Hcalls)
        as [(-> & -> & _ & ->) | (before' & -> & Hcalls')].
      * split; reflexivity.
      * exfalso. cbn [send_audio_all] in Hbefore.
        rewrite (send_audio_all_disconnected before' _ Hoff) in Hbefore.
        cbn [fst] in Hbefore. congruence.
    + specialize (IH _ _ Hconn'). rewrite Eall in IH. cbv zeta in IH.
      cbn [fst snd] in IH. destruct IH as (H1 & H2 & H3 & H4).
      rewrite Hres. cbn [accepted_payloads].
      assert (Hlen : len (data :: accepted_payloads calls results)
                     = len (accepted_payloads calls results) + 1)
        by (unfold len; simpl length; lia).
      split; [rewrite H1, <- app_assoc; reflexivity|].
      split; [rewrite H2, Hcount', Hlen; lia|].
      split; [constructor; assumption|].
      intros before after audio_data Hcalls Hne Hbefore.
      destruct (Htail before after audio_data Hcalls)
        as [(_ & _ & Hr & _) | (before' & -> & Hcalls')]; [discriminate|].
      cbn [send_audio_all] in Hbefore |- *.
      destruct (send_audio_all (sr_self (send_audio self data false)) before')
        as [sb rb] eqn:Eb. cbn [fst] in *.
      specialize (H4 before' after audio_data Hcalls' Hne).
      rewrite Eb in H4. cbn [fst] in H4. specialize (H4 Hbefore).
      cbn [length skipn]. exact H4.
Qed.

(** A service whose connection is open and has accepted nothing yet. *)
Definition open_deepgram : DeepgramService := {|
  connection := Some [];
  _is_connected := true;
  _last_error := None;
  _send_count := None;
  on_error := true
|}.

(** Four calls: a payload that is sent, empty data, a payload on which
    [send] raises, and a payload after that. *)
Definition four_sends : list (bytes * bool) :=
  [([Byte.x01], false); ([], false); ([Byte.x02], true); ([Byte.x03], false)].

Lemma send_audio_accounting_witness :
  snd (send_audio_all open_deepgram four_sends) = [true; false; false; false] /\
  connection (fst (send_audio_all open_deepgram four_sends))
    = Some ([] ++ accepted_payloads four_sends (snd (send_audio_all open_deepgram four_sends))).
Proof.
  split; [reflexivity|].
  exact (proj1 (send_audio_accounting four_sends open_deepgram [] eq_refl)).
Defined.

(** ** The receive loop of the transcription route (transcription.py) *)

(** What [await websocket.receive_bytes()] does at one turn of the loop: it
    returns data (and [send_raises] tells what the Deepgram connection would
    do with it), raises [WebSocketDisconnect], or raises another
    exception. *)
Inductive Received : Type :=
  | Data (data : bytes) (send_raises : bool)
  | WebSocketDisconnect
  | ReceiveError.

(** The two kinds of message [_send_error] is called with during the loop:
    by the [on_error] callback of the Deepgram service (lines 32-34), and by
    the handler of the loop (line 102). *)
Inductive ErrorMessage : Type :=
  | Deepgram_error
  | Processing_error.


Section Route.
Context `{Collaborators}.

(** What the handler of one websocket works on from line 55 on: the global
    VAD service ([None] when it was never initialised), its Deepgram
    service, the clock, its two counters, the utterances its
    [on_utterance_detected] has logged, and the error messages it has handed
    to [_send_error]. *)
Record Handler : Type := {
  vad_service : option VadService;
  deepgram_service : DeepgramService;
  h_clock : nat;
  audio_chunk_count : Z;
  total_audio_bytes : Z;
  logged_utterances : list bytes;
  errors_sent : list ErrorMessage
}.

(** One turn of the loop on received data (lines 72-94, with the handler of
    line 99 for what [process_audio_chunk] raises).  [send_audio] comes
    first and never raises; a missing VAD service makes the call of line 90
    raise. *)
Definition receive_data (connection_id : string) (h : Handler) (data : bytes)
    (send_raises : bool) : Handler :=
  match data with
  | [] => h
  | _ :: _ =>
      let sent := send_audio (deepgram_service h) data send_raises in
      let errors :=
        if sr_reported sent then errors_sent h ++ [Deepgram_error] else errors_sent h in
      match vad_service h with
      | None =>
          {| vad_service := None;
             deepgram_service := sr_self sent;
             h_clock := h_clock h;
             audio_chunk_count := audio_chunk_count h + 1;
             total_audio_bytes := total_audio_bytes h + len data;
             logged_utterances := logged_utterances h;
             errors_sent := errors ++ [Processing_error] |}
      | Some vad =>
          let r := process_audio_chunk vad (h_clock h) connection_id data true in
          {| vad_service := Some (cr_self r);
             deepgram_service := sr_self sent;
             h_clock := cr_clock r;
             audio_chunk_count := audio_chunk_count h + 1;
             total_audio_bytes := total_audio_bytes h + len data;
             logged_utterances := logged_utterances h ++ cr_sent r;
             errors_sent :=
               match cr_done r with
               | Normal => errors
               | _ => errors ++ [Processing_error]
               end |}
      end
  end.

(** Line 102 alone: the error message for an exception of
    [receive_bytes]. *)
Definition receive_failed (h : Handler) : Handler := {|
  vad_service := vad_service h;
  deepgram_service := deepgram_service h;
  h_clock := h_clock h;
  audio_chunk_count := audio_chunk_count h;
  total_audio_bytes := total_audio_bytes h;
  logged_utterances := logged_utterances h;
  errors_sent := errors_sent h ++ [Processing_error]
|}.

(** The loop of lines 67-102 over what the websocket delivers.  The boolean
    tells whether the loop was left (by a disconnect); with [false] the
    handler is waiting for the next message. *)
Fixpoint receive_loop (connection_id : string) (h : Handler) (events : list Received)
  : Handler * bool :=
  match events with
  | [] => (h, false)
  | Data data send_raises :: events' =>
      receive_loop connection_id (receive_data connection_id h data send_raises) events'
  | WebSocketDisconnect :: _ => (h, true)
  | ReceiveError :: events' => receive_loop connection_id (receive_failed h) events'
  end.

(** The [finally] block (lines 107-112): the state of the connection is
    removed from the VAD service and the Deepgram service is closed. *)
Definition finally_block (connection_id : string) (h : Handler) (finish_raises : bool)
  : Handler := {|
  vad_service :=
    match vad_service h with
    | Some vad => Some (cleanup_connection vad connection_id)
    | None => None
    end;
  deepgram_service := finish (deepgram_service h) finish_raises;
  h_clock := h_clock h;
  audio_chunk_count := audio_chunk_count h;
  total_audio_bytes := total_audio_bytes h;
  logged_utterances := logged_utterances h;
  errors_sent := errors_sent h
|}.

(** [handle_transcription_websocket] from line 55 on, once Deepgram has
    started and the confirmation has been sent. *)
Definition handle_transcription_websocket (connection_id : string) (h : Handler)
    (events : list Received) (finish_raises : bool) : Handler :=
  let '(h', ended) := receive_loop connection_id h events in
  if ended then finally_block connection_id h' finish_raises else h'.

(** The non-empty data the loop receives before it is left, each with what
    the Deepgram connection does with it. *)
Fixpoint audio_received (events : list Received) : list (bytes * bool) :=
  match events with
  | Data [] _ :: events' => audio_received events'
  | Data data send_raises :: events' => (data, send_raises) :: audio_received events'
  | ReceiveError :: events' => audio_received events'
  | _ => []
  end.

End Route.

Section RouteFacts.
Context `{Collaborators}.

Lemma process_audio_chunk_others (self : VadService) (clock : nat)
    (connection_id other : string) (audio_bytes : bytes) (cb : bool) :
  other <> connection_id ->
  connections (cr_self (process_audio_chunk self clock connection_id audio_bytes cb))
    !! other = connections self !! other.
Proof.
  intros Hne. destruct (vad_model_loaded self) eqn:Hloaded.
  - rewrite process_audio_chunk_frames by exact Hloaded. cbv zeta.
    cbn [cr_self connections]. apply lookup_insert_ne. congruence.
  - unfold process_audio_chunk. rewrite Hloaded. reflexivity.
Qed.

Lemma process_audio_chunk_mode (self : VadService) (clock : nat)
    (connection_id : string) (audio_bytes : bytes) (cb : bool) :
  vad_model_loaded (cr_self (process_audio_chunk self clock connection_id audio_bytes cb))
    = vad_model_loaded self.
Proof.
  destruct (vad_model_loaded self) eqn:Hloaded.
  - rewrite process_audio_chunk_frames by exact Hloaded. reflexivity.
  - unfold process_audio_chunk. rewrite Hloaded. exact Hloaded.
Qed.

(** Two VAD services that agree on the mode and on every connection but
    [connection_id]. *)
Definition same_elsewhere (connection_id : string) (vad vad' : VadService) : Prop :=
  vad_model_loaded vad' = vad_model_loaded vad /\
  forall other : string,
    other <> connection_id -> connections vad' !! other = connections vad !! other.

Lemma receive_data_elsewhere (connection_id : string) (h : Handler) (data : bytes)
    (send_raises : bool) (vad0 vad : VadService) :
  vad_service h = Some vad -> same_elsewhere connection_id vad0 vad ->
  exists vad', vad_service (receive_data connection_id h data send_raises) = Some vad' /\
               same_elsewhere connection_id vad0 vad'.
Proof.
  intros Hvad (Hmode & Hothers). unfold receive_data. destruct data as [|b data].
  - exists vad. repeat split; assumption.
  - rewrite Hvad. cbv zeta. cbn [vad_service]. eexists. split; [reflexivity|]. split.
    + rewrite process_audio_chunk_mode. exact Hmode.
    + intros other Hne. rewrite process_audio_chunk_others by exact Hne.
      apply Hothers. exact Hne.
Qed.

Lemma receive_loop_elsewhere (connection_id : string) (events : list Received) :
  forall (h : Handler) (vad0 vad : VadService),
  vad_service h = Some vad -> same_elsewhere connection_id vad0 vad ->
  exists vad', vad_service (fst (receive_loop connection_id h events)) = Some vad' /\
               same_elsewhere connection_id vad0 vad'.
Proof.
  induction events as [|[data raises| |] events IH]; intros h vad0 vad Hvad Hsame;
    cbn [receive_loop fst].
  - exists vad. split; assumption.
  - destruct (receive_data_elsewhere connection_id h data raises vad0 vad Hvad Hsame)
      as (vad1 & Hvad1 & Hsame1).
    exact (IH _ vad0 vad1 Hvad1 Hsame1).
  - exists vad. split; assumption.
  - exact (IH (receive_failed h) vad0 vad Hvad Hsame).
Qed.

Lemma receive_loop_left (connection_id : string) (events : list Received) :
  forall h : Handler,
  In WebSocketDisconnect events -> snd (receive_loop connection_id h events) = true.
Proof.
  induction events as [|[data raises| |] events IH]; intros h Hin; cbn [receive_loop].
  - destruct Hin.
  - apply IH. destruct Hin as [Hin|Hin]; [discriminate | exact Hin].
  - reflexivity.
  - apply IH. destruct Hin as [Hin|Hin]; [discriminate | exact Hin].
Qed.






Lemma send_audio_keeps_connection (self : DeepgramService) (audio_data : bytes)
    (send_raises : bool) :
  is_Some (connection self) ->
  is_Some (connection (sr_self (send_audio self audio_data send_raises))).
Proof.
  intros [accepted Hconn]. unfold send_audio. rewrite Hconn.
  destruct (negb (_is_connected self)); [eexists; exact Hconn|].
  destruct (len audio_data =? 0); [eexists; exact Hconn|].
  destruct send_raises; cbn; eexists; reflexivity.
Qed.

Lemma receive_loop_keeps_connection (connection_id : string) (events : list Received) :
  forall h : Handler,
  is_Some (connection (deepgram_service h)) ->
  is_Some (connection (deepgram_service (fst (receive_loop connection_id h events)))).
Proof.
  induction events as [|[data raises| |] events IH]; intros h Hconn;
    cbn [receive_loop fst]; try assumption.
  - apply IH. unfold receive_data. destruct data as [|b data]; [assumption|].
    cbv zeta. destruct (vad_service h); cbn [deepgram_service];
      apply send_audio_keeps_connection; assumption.
  - apply IH. exact Hconn.
Qed.

End RouteFacts.

(** X17. A session cleans up after itself.  When the websocket disconnects,
    whatever was received before (data, empty data, failures of the
    websocket, chunks on which the scorer raised) and however the Deepgram
    connection behaved, the handler leaves the VAD service without a state
    for its connection, with every other connection's stored state and the
    mode as they were when the loop began; and unless closing the Deepgram
    connection raised, the Deepgram service is marked as not connected. *)
Theorem disconnect_cleans_up `{Collaborators} (connection_id : string)
    (events : list Received) (finish_raises : bool) (h : Handler) (vad : VadService) :
  vad_service h = Some vad ->
  In WebSocketDisconnect events ->
  let h' := handle_transcription_websocket connection_id h events finish_raises in
  (exists vad', vad_service h' = Some vad' /\
     connections vad' !! connection_id = None /\
     vad_model_loaded vad' = vad_model_loaded vad /\
     forall other : string,
       other <> connection_id -> connections vad' !! other = connections vad !! other) /\
  (finish_raises = false -> is_Some (connection (deepgram_service h)) ->
   _is_connected (deepgram_service h') = false).
Proof.
  intros Hvad Hin h'. unfold h', handle_transcription_websocket.
  pose proof (receive_loop_left connection_id events h Hin) as Hleft.
  destruct (receive_loop_elsewhere connection_id events h vad vad Hvad)
    as (vad1 & Hvad1 & Hmode & Hothers).
  { split; [reflexivity | intros; reflexivity]. }
  pose proof (receive_loop_keeps_connection connection_id events h) as Hkeep.
  destruct (receive_loop connection_id h events) as [h1 ended].
  cbn [fst snd] in *. subst ended. split.
  - exists (cleanup_connection vad1 connection_id).
    unfold finally_block. cbn [vad_service]. rewrite Hvad1.
    split; [reflexivity|]. unfold cleanup_connection.
    destruct (connections vad1 !! connection_id) eqn:Hlook; cbn [connections vad_model_loaded].
    + split; [apply lookup_delete_eq|]. split; [exact Hmode|].
      intros other Hne. rewrite lookup_delete_ne by congruence. apply Hothers. exact Hne.
    + split; [exact Hlook|]. split; [exact Hmode | exact Hothers].
  - intros -> Hconn. destruct (Hkeep Hconn) as [accepted Hacc].
    unfold finally_block. cbn [deepgram_service]. unfold finish. rewrite Hacc.
    reflexivity.
Qed.

(** A handler of the bench at the start of its loop. *)
Definition bench_handler : @Handler bench := {|
  vad_service := Some bench_service;
  deepgram_service := open_deepgram;
  h_clock := 0;
  audio_chunk_count := 0;
  total_audio_bytes := 0;
  logged_utterances := [];
  errors_sent := []
|}.

(** A session in which the scorer raises on one chunk, the Deepgram
    connection fails on another and the websocket fails once. *)
Definition rough_session : list Received :=
  [Data (tone Byte.x01) false; Data failing_chunk false; ReceiveError; Data [] false;
   Data (tone Byte.x02) true; Data (tone Byte.x02) false; WebSocketDisconnect;
   Data (tone Byte.x01) false].

Lemma disconnect_cleans_up_witness :
  _is_connected
    (deepgram_service
       (@handle_transcription_websocket bench "c" bench_handler rough_session false))
  = false.
Proof.
  apply (@disconnect_cleans_up bench "c" rough_session false bench_handler bench_service).
  - reflexivity.
  - unfold rough_session. simpl. tauto.
  - reflexivity.
  - eexists. reflexivity.
Defined.

(** X18. Deepgram gets every chunk, whatever the VAD does.  Up to the point
    the loop has reached, [send_audio] has been called once for each
    non-empty message, in order, and for nothing else: not for an empty
    message, and no exception of the VAD call or of the websocket, nor a
    missing VAD service, keeps a later message from it.  The two counters
    count the non-empty messages and their bytes. *)
Theorem receive_loop_feeds_deepgram `{Collaborators} (connection_id : string)
    (events : list Received) :
  forall h : Handler,
  let h' := fst (receive_loop connection_id h events) in
  let audio := audio_received events in
  deepgram_service h' = fst (send_audio_all (deepgram_service h) audio) /\
  audio_chunk_count h' = audio_chunk_count h + len audio /\
  total_audio_bytes h' = total_audio_bytes h + len (concat (map fst audio)).
Proof.
  induction events as [|[data raises| |] events IH]; intros h; cbv zeta.
  - cbn. unfold len. simpl. repeat split; lia.
  - cbn [receive_loop]. destruct data as [|b data].
    + cbn [receive_data audio_received]. apply IH.
    + specialize (IH (receive_data connection_id h (b :: data) raises)).
      cbv zeta in IH. destruct IH as (H1 & H2 & H3).
      cbn [audio_received send_audio_all map fst concat].
      assert (Hstep :
        deepgram_service (receive_data connection_id h (b :: data) raises)
          = sr_self (send_audio (deepgram_service h) (b :: data) raises) /\
        audio_chunk_count (receive_data connection_id h (b :: data) raises)
          = audio_chunk_count h + 1 /\
        total_audio_bytes (receive_data connection_id h (b :: data) raises)
          = total_audio_bytes h + len (b :: data)).
      { unfold receive_data. cbv zeta. destruct (vad_service h); repeat split. }
      destruct Hstep as (S1 & S2 & S3). rewrite S1 in H1. rewrite S2 in H2. rewrite S3 in H3.
      destruct (send_audio_all (sr_self (send_audio (deepgram_service h) (b :: data) raises))
                  (audio_received events)) as [dg results].
      cbn [fst] in *. split; [exact H1|]. split.
      * rewrite H2. unfold len. simpl length. lia.
      * rewrite H3. rewrite len_app. lia.
  - cbn. unfold len. simpl. repeat split; lia.
  - cbn [receive_loop audio_received]. apply (IH (receive_failed h)).
Qed.




Section VadSide.
Context `{Collaborators}.

(** The VAD calls of the loop on their own: one call a chunk, whether the
    one before returned or raised; the result is the service, the clock and
    what the callback logged. *)
Fixpoint vad_calls (connection_id : string) (vad : option VadService) (clock : nat)
    (chunks : list bytes) : option VadService * nat * list bytes :=
  match chunks, vad with
  | chunk :: chunks', Some v =>
      let r := process_audio_chunk v clock connection_id chunk true in
      let '(vad', clock', sent) :=
        vad_calls connection_id (Some (cr_self r)) (cr_clock r) chunks' in
      (vad', clock', cr_sent r ++ sent)
  | _, _ => (vad, clock, [])
  end.

Lemma receive_loop_vad_calls (connection_id : string) (events : list Received) :
  forall h : Handler,
  let h' := fst (receive_loop connection_id h events) in
  let '(vad', clock', sent) :=
    vad_calls connection_id (vad_service h) (h_clock h)
      (map fst (audio_received events)) in
  vad_service h' = vad' /\ h_clock h' = clock' /\
  logged_utterances h' = logged_utterances h ++ sent.
Proof.
  induction events as [|[data raises| |] events IH]; intros h; cbv zeta.
  - cbn. destruct (vad_service h); rewrite app_nil_r; repeat split.
  - cbn [receive_loop fst]. destruct data as [|b data].
    + cbn [receive_data audio_received]. apply IH.
    + specialize (IH (receive_data connection_id h (b :: data) raises)).
      cbv zeta in IH. cbn [audio_received map fst].
      destruct (vad_service h) as [vad|] eqn:Hvad.
      * cbn [vad_calls].
        assert (Hstep :
          vad_service (receive_data connection_id h (b :: data) raises)
            = Some (cr_self (process_audio_chunk vad (h_clock h) connection_id
                               (b :: data) true)) /\
          h_clock (receive_data connection_id h (b :: data) raises)
            = cr_clock (process_audio_chunk vad (h_clock h) connection_id
                          (b :: data) true) /\
          logged_utterances (receive_data connection_id h (b :: data) raises)
            = logged_utterances h
              ++ cr_sent (process_audio_chunk vad (h_clock h) connection_id
                            (b :: data) true)).
        { unfold receive_data. rewrite Hvad. repeat split. }
        destruct Hstep as (S1 & S2 & S3). rewrite S1, S2, S3 in IH.
        destruct (vad_calls connection_id _ _ (map fst (audio_received events)))
          as [[vad' clock'] sent].
        destruct IH as (H1 & H2 & H3). repeat split; try assumption.
        rewrite H3, <- app_assoc. reflexivity.
      * assert (Hstep :
          vad_service (receive_data connection_id h (b :: data) raises) = None /\
          h_clock (receive_data connection_id h (b :: data) raises) = h_clock h /\
          logged_utterances (receive_data connection_id h (b :: data) raises)
            = logged_utterances h).
        { unfold receive_data. rewrite Hvad. repeat split. }
        destruct Hstep as (S1 & S2 & S3). rewrite S1, S2, S3 in IH.
        assert (Hnone : forall chunks clock,
                  vad_calls connection_id None clock chunks = (None, clock, [])).
        { intros [|c chunks] clock; reflexivity. }
        rewrite Hnone in IH |- *. exact IH.
  - cbn. destruct (vad_service h); rewrite app_nil_r; repeat split.
  - cbn [receive_loop fst audio_received]. apply (IH (receive_failed h)).
Qed.

End VadSide.

(** X20. The VAD does not depend on Deepgram.  Two runs of the loop that
    start from the same VAD service and clock and receive the same
    non-empty audio end with the same VAD service and clock and log the same
    utterances, whatever their Deepgram services were and did, and whatever
    failures of the websocket or empty messages came in between. *)
Theorem vad_ignores_deepgram `{Collaborators} (connection_id : string)
    (events1 events2 : list Received) (h1 h2 : Handler) :
  vad_service h1 = vad_service h2 ->
  h_clock h1 = h_clock h2 ->
  map fst (audio_received events1) = map fst (audio_received events2) ->
  let h1' := fst (receive_loop connection_id h1 events1) in
  let h2' := fst (receive_loop connection_id h2 events2) in
  vad_service h1' = vad_service h2' /\
  h_clock h1' = h_clock h2' /\
  exists logged : list bytes,
    logged_utterances h1' = logged_utterances h1 ++ logged /\
    logged_utterances h2' = logged_utterances h2 ++ logged.
Proof.
  intros Hvad Hclock Haudio h1' h2'.
  pose proof (receive_loop_vad_calls connection_id events1 h1) as R1.
  pose proof (receive_loop_vad_calls connection_id events2 h2) as R2.
  cbv zeta in R1, R2. fold h1' in R1. fold h2' in R2.
  rewrite <- Hvad, <- Hclock, <- Haudio in R2.
  destruct (vad_calls connection_id (vad_service h1) (h_clock h1)
              (map fst (audio_received events1))) as [[vad' clock'] sent].
  destruct R1 as (A1 & A2 & A3). destruct R2 as (B1 & B2 & B3).
  split; [congruence|]. split; [congruence|].
  exists sent. split; assumption.
Qed.

(** A handler of the bench whose Deepgram service never connected, with
    counters and errors of an earlier life. *)
Definition bench_handler_offline : @Handler bench := {|
  vad_service := Some bench_service;
  deepgram_service :=
    {| connection := None; _is_connected := false; _last_error := Some "refused"%string;
       _send_count := None; on_error := false |};
  h_clock := 0;
  audio_chunk_count := 7;
  total_audio_bytes := 7000;
  logged_utterances := [[Byte.x01]];
  errors_sent := [Deepgram_error]
|}.

(** The audio of [rough_session] again, without the failures. *)
Definition smooth_session : list Received :=
  [Data (tone Byte.x01) false; Data failing_chunk false;
   Data (tone Byte.x02) false; Data (tone Byte.x02) false].

Lemma vad_ignores_deepgram_witness :
  vad_service (fst (@receive_loop bench "c" bench_handler rough_session))
  = vad_service (fst (@receive_loop bench "c" bench_handler_offline smooth_session)).
Proof.
  apply (@vad_ignores_deepgram bench "c" rough_session smooth_session
           bench_handler bench_handler_offline); reflexivity.
Defined.

(** X21. No sending after an error or a close.  After [_on_error], after [_on_close], and after a [finish]
    that did not raise on a service with a connection, every [send_audio]
    returns [False] and leaves the service as it is, however many calls are
    made; the text of the error stays readable through [get_last_error],
    also after the connection reopens; and after [_on_open] a service with a
    connection sends again. *)
Theorem no_sending_after_close (self : DeepgramService) (error : option string)
    (calls : list (bytes * bool)) :
  send_audio_all (_on_error self error) calls
    = (_on_error self error, repeat false (length calls)) /\
  send_audio_all (_on_close self) calls
    = (_on_close self, repeat false (length calls)) /\
  (is_Some (connection self) ->
   send_audio_all (finish self false) calls
     = (finish self false, repeat false (length calls))) /\
  get_last_error (_on_open (_on_error self error))
    = Some (default "Unknown error"%string error) /\
  (is_Some (connection self) ->
   forall (b : Byte.byte) (audio_data : bytes),
     sr_result (send_audio (_on_open (_on_error self error)) (b :: audio_data) false)
       = true).
Proof.
  split; [apply send_audio_all_disconnected; reflexivity|].
  split; [apply send_audio_all_disconnected; reflexivity|].
  split.
  - intros [accepted Hconn]. apply send_audio_all_disconnected.
    unfold finish. rewrite Hconn. reflexivity.
  - split; [reflexivity|].
    intros [accepted Hconn] b audio_data. unfold send_audio.
    cbn [_on_open _on_error connection _is_connected negb]. rewrite Hconn.
    assert (Hlen : (len (b :: audio_data) =? 0) = false).
    { apply Z.eqb_neq. unfold len. simpl length. lia. }
    rewrite Hlen. reflexivity.
Qed.
